(** * Arieo::Lib::WasmtimeLinker: typed value conversion, generated host
      callbacks and the export registry.

    A shallow embedding of [interface_wasmtime_linker.h].  Templates over a
    C++ type become functions over a descriptor of that type, the spans of
    [wasmtime::component::Val] become lists, the function-local [static]
    objects become an explicit store, and the calls of the wrapped member
    function and of the logger are recorded in a trace. *)

From stdpp Require Import gmap strings list fin_maps.
From Stdlib Require Import ZArith Lia.

Open Scope Z_scope.

(** ** Machine integers *)

Module Int.

Definition two32 : Z := 2 ^ 32.
Definition two64 : Z := 2 ^ 64.

(** [static_cast<int32_t>], [static_cast<int64_t>] and
    [static_cast<uint64_t>] on an integer: reduction modulo the width. *)
Definition to_s32 (z : Z) : Z := (z + 2 ^ 31) mod two32 - 2 ^ 31.
Definition to_s64 (z : Z) : Z := (z + 2 ^ 63) mod two64 - 2 ^ 63.
Definition to_u64 (z : Z) : Z := z mod two64.

Definition is_s32 (z : Z) : Prop := - 2 ^ 31 <= z < 2 ^ 31.
Definition is_s64 (z : Z) : Prop := - 2 ^ 63 <= z < 2 ^ 63.
Definition is_u32 (z : Z) : Prop := 0 <= z < two32.
Definition is_u64 (z : Z) : Prop := 0 <= z < two64.

End Int.

(** ** Typed values and native types *)

(** [wasmtime::component::Val]: a tagged value.  The integer payloads are the
    numbers they denote; a float payload is its IEEE bit pattern, which the
    converter only ever copies.  The header inspects the five tags
    [s32], [s64], [u64], [f32], [f64]; the runtime has more, of which
    [bool], [u32] and [string] are kept here. *)
Inductive Val : Type :=
  | VBool (b : bool)
  | VS32 (z : Z)
  | VU32 (z : Z)
  | VS64 (z : Z)
  | VU64 (z : Z)
  | VF32 (bits : Z)
  | VF64 (bits : Z)
  | VString (s : string).

Inductive Tag : Type :=
  | KBool | KS32 | KU32 | KS64 | KU64 | KF32 | KF64 | KString.

Definition tag_of (val : Val) : Tag :=
  match val with
  | VBool _ => KBool
  | VS32 _ => KS32
  | VU32 _ => KU32
  | VS64 _ => KS64
  | VU64 _ => KU64
  | VF32 _ => KF32
  | VF64 _ => KF64
  | VString _ => KString
  end.

(** The payload of a typed value lies in the range of its tag. *)
Definition val_wf (val : Val) : Prop :=
  match val with
  | VBool _ | VString _ => True
  | VS32 z => Int.is_s32 z
  | VU32 z => Int.is_u32 z
  | VS64 z => Int.is_s64 z
  | VU64 z => Int.is_u64 z
  | VF32 bits => Int.is_u32 bits
  | VF64 bits => Int.is_u64 bits
  end.

(** The template argument [T] of [extractValue] and [Ret] of
    [createResultVal].  [int] is [int32_t] and [long long] is as wide as
    [int64_t], so each pair of the header's [is_same_v] tests is one case.
    [NUInt32] stands for the types none of the tests names. *)
Inductive NativeTy : Type :=
  | NInt32 | NInt64 | NUInt64 | NFloat | NDouble | NUInt32.

Definition supported (T : NativeTy) : bool :=
  match T with
  | NUInt32 => false
  | _ => true
  end.

(** The tag [createResultVal] gives to a result of type [T]; for a
    supported [T] it is the tag [extractValue<T>] tests first. *)
Definition tag_for (T : NativeTy) : Tag :=
  match T with
  | NInt32 | NUInt32 => KS32
  | NInt64 => KS64
  | NUInt64 => KU64
  | NFloat => KF32
  | NDouble => KF64
  end.

(** The values of the native type [T] (floats as bit patterns). *)
Definition native_range (T : NativeTy) (v : Z) : Prop :=
  match T with
  | NInt32 => Int.is_s32 v
  | NInt64 => Int.is_s64 v
  | NUInt64 => Int.is_u64 v
  | NFloat => Int.is_u32 v
  | NDouble => Int.is_u64 v
  | NUInt32 => Int.is_u32 v
  end.

(** [T{}]: zero for every scalar, positive zero (all bits clear) for the
    floats. *)
Definition zero_value (T : NativeTy) : Z := 0.

(** [extractValue<T>(val, index)]; [index] is unused by the body. *)
Definition extractValue (T : NativeTy) (val : Val) (index : nat) : Z :=
  match T with
  | NInt32 =>
      match val with
      | VS32 z => z
      | _ => zero_value NInt32
      end
  | NInt64 =>
      match val with
      | VS64 z => z
      | VU64 z => Int.to_s64 z
      | _ => zero_value NInt64
      end
  | NUInt64 =>
      match val with
      | VU64 z => z
      | _ => zero_value NUInt64
      end
  | NFloat =>
      match val with
      | VF32 bits => bits
      | _ => zero_value NFloat
      end
  | NDouble =>
      match val with
      | VF64 bits => bits
      | _ => zero_value NDouble
      end
  | NUInt32 => zero_value NUInt32
  end.

(** [createResultVal<Ret>(result)]. *)
Definition createResultVal (Ret : NativeTy) (result : Z) : Val :=
  match Ret with
  | NInt32 => VS32 (Int.to_s32 result)
  | NInt64 => VS64 (Int.to_s64 result)
  | NUInt64 => VU64 (Int.to_u64 result)
  | NFloat => VF32 result
  | NDouble => VF64 result
  | NUInt32 => VS32 (Int.to_s32 0)
  end.

#[global] Instance Val_inhabited : Inhabited Val := populate (VS32 0).

(** ** Generated callbacks *)

(** [wasmtime::Result<std::monostate>]. *)
Inductive Outcome : Type :=
  | ROk
  | RErr (message : string).

(** The messages handed to [Core::Logger], with the values substituted for
    their placeholders. *)
Inductive LogEvent : Type :=
  | InfoInvoked (n_args : nat)
  | ErrorInsufficient (expected got : nat)
  | ErrorInvalidInstance (instance_ptr_value : Z)
  | TraceInstance (instance_ptr_value : Z)
  | TraceParam (Is : nat) (T : NativeTy) (value : Z)
  | TraceReturned (result : Z).

Section Callback.

(** The state of the host objects the wrapped member functions act on. *)
Variable Host : Type.

(** A pointer to a member function of [Class] taking [Args...] and
    returning [Ret]: the parameter types, the return type ([None] for
    [void]) and what a call on the object at an address does to the host
    and returns. *)
Record Method : Type := {
  m_args : list NativeTy;
  m_ret : option NativeTy;
  m_body : Z -> list Z -> Host -> Host * Z;
}.

(** One call of [func_ptr] on [instance]. *)
Record Invocation : Type := {
  inv_method : Method;
  inv_instance : Z;
  inv_actuals : list Z;
}.

(** What a callback can change besides its output span: the host objects,
    and the two traces of the calls made and of the messages logged. *)
Record World : Type := {
  w_host : Host;
  w_calls : list Invocation;
  w_log : list LogEvent;
}.

(** [InterfaceFunctionHostCallback].  Of the four parameters of the
    closure, [store_ctx] and [func_type] are never read and are left out;
    [args] and [results] are the two spans, and the span [results] after
    the call is returned next to the outcome. *)
Definition InterfaceFunctionHostCallback : Type :=
  list Val -> list Val -> World -> World * list Val * Outcome.

Definition log (e : LogEvent) (w : World) : World :=
  {| w_host := w_host w; w_calls := w_calls w; w_log := w_log w ++ [e] |}.

Definition log_all (es : list LogEvent) (w : World) : World :=
  {| w_host := w_host w; w_calls := w_calls w; w_log := w_log w ++ es |}.

(** The call of [func_ptr] on [instance] with the extracted arguments. *)
Definition call_method (func_ptr : Method) (instance : Z) (actuals : list Z)
    (w : World) : World * Z :=
  let '(h, result) := m_body func_ptr instance actuals (w_host w) in
  ({| w_host := h;
      w_calls := w_calls w ++
        [{| inv_method := func_ptr; inv_instance := instance;
            inv_actuals := actuals |}];
      w_log := w_log w |}, result).

(** The pack expansion [extractValue<Args>(args[Is + 1], Is + 1)...]. *)
Definition extract_actuals (Args : list NativeTy) (args : list Val) : list Z :=
  imap (fun Is T => extractValue T (args !!! (Is + 1)%nat) (Is + 1)%nat) Args.

(** The fold expression of the "Param" trace messages. *)
Definition param_messages (Args : list NativeTy) (args : list Val)
    : list LogEvent :=
  imap (fun Is T =>
          TraceParam Is T (extractValue T (args !!! (Is + 1)%nat) (Is + 1)%nat))
       Args.

(** The closure [generateCallbackImpl] returns.  [args[i]] is read with
    [!!!]; every read is below the size the first test has checked.  The
    instance pointer is the 64-bit integer itself, null when it is zero. *)
Definition generateCallbackImpl (func_ptr : Method)
    : InterfaceFunctionHostCallback :=
  fun args results w =>
    let w := log (InfoInvoked (length args)) w in
    if bool_decide (length args < 1 + length (m_args func_ptr))%nat then
      let w := log (ErrorInsufficient (1 + length (m_args func_ptr))
                                      (length args)) w in
      (w, results, ROk)
    else
      let instance_ptr_value := extractValue NInt64 (args !!! 0%nat) 0%nat in
      let instance := instance_ptr_value in
      if bool_decide (instance = 0) then
        let w := log (ErrorInvalidInstance instance_ptr_value) w in
        (w, results, ROk)
      else
        let w := log (TraceInstance instance_ptr_value) w in
        let w := log_all (param_messages (m_args func_ptr) args) w in
        match m_ret func_ptr with
        | None =>
            let '(w, _) :=
              call_method func_ptr instance
                          (extract_actuals (m_args func_ptr) args) w in
            (w, results, ROk)
        | Some Ret =>
            let '(w, result) :=
              call_method func_ptr instance
                          (extract_actuals (m_args func_ptr) args) w in
            let w := log (TraceReturned result) w in
            let results :=
              if bool_decide (0 < length results)%nat
              then <[0%nat := createResultVal Ret result]> results
              else results in
            (w, results, ROk)
        end.

(** [generateCallback]: the signature is read off the pointer's type. *)
Definition generateCallback (func_ptr : Method)
    : InterfaceFunctionHostCallback :=
  generateCallbackImpl func_ptr.

End Callback.

Arguments m_args {Host} _.
Arguments m_ret {Host} _.
Arguments m_body {Host} _ _ _ _.
Arguments inv_method {Host} _.
Arguments inv_instance {Host} _.
Arguments inv_actuals {Host} _.
Arguments w_host {Host} _.
Arguments w_calls {Host} _.
Arguments w_log {Host} _.
Arguments log {Host} _ _.
Arguments log_all {Host} _ _.
Arguments call_method {Host} _ _ _ _.
Arguments generateCallbackImpl {Host} _ _ _ _.
Arguments generateCallback {Host} _ _ _ _.

(** The instance handle a callback reads from [args[0]]. *)
Definition handle_of (args : list Val) : Z :=
  extractValue NInt64 (args !!! 0%nat) 0%nat.

(** The two checks a callback makes before it calls the method. *)
Definition accepted {Host : Type} (func_ptr : Method Host) (args : list Val)
    : Prop :=
  (1 + length (m_args func_ptr) <= length args)%nat /\ handle_of args <> 0.

Definition is_error (e : LogEvent) : Prop :=
  match e with
  | ErrorInsufficient _ _ | ErrorInvalidInstance _ => True
  | _ => False
  end.

(** The record of the one call a callback of [func_ptr] makes on [args]. *)
Definition invocation_of {Host : Type} (func_ptr : Method Host)
    (args : list Val) : Invocation Host :=
  {| inv_method := func_ptr;
     inv_instance := handle_of args;
     inv_actuals := extract_actuals (m_args func_ptr) args |}.

(** What that call returns, and the host it leaves. *)
Definition method_result {Host : Type} (func_ptr : Method Host)
    (args : list Val) (w : World Host) : Z :=
  (m_body func_ptr (handle_of args)
          (extract_actuals (m_args func_ptr) args) (w_host w)).2.

Definition method_effect {Host : Type} (func_ptr : Method Host)
    (args : list Val) (w : World Host) : Host :=
  (m_body func_ptr (handle_of args)
          (extract_actuals (m_args func_ptr) args) (w_host w)).1.

(** ** Export descriptors and the registry *)

Section Registry.

Variable Host : Type.

(** The interface types the templates are instantiated at. *)
Variable Iface : Type.
Context `{Countable Iface}.

(** What [iteratorMemberFunctions] hands to its visitor for one member
    function. *)
Record MemberFunction : Type := {
  mf_func_ptr : Method Host;
  mf_func_name : string;
  mf_wit_func_name : string;
  mf_function_id : Z;
  mf_function_checksum : Z;
}.

(** [Arieo::Base::InterfaceInfo<T>] and [typeid(T).name()], which
    [core/module/module.h] and the compiler provide: the static metadata
    of one interface type.  [iteratorMemberFunctions] visits
    [memberFunctions] from first to last, and [getMemberFunctionCount] is
    the number of functions it visits. *)
Record InterfaceInfo : Type := {
  getWitFullInterfaceName : string;
  getInterfaceId : Z;
  getInterfaceChecksum : Z;
  typeid_name : string;
  memberFunctions : list MemberFunction;
}.

Definition getMemberFunctionCount (info : InterfaceInfo) : nat :=
  length (memberFunctions info).

Variable interfaceInfo : Iface -> InterfaceInfo.

(** [Arieo::Base::ct::genCrc32StringID]. *)
Variable genCrc32StringID : string -> Z.

(** Pointers into the static storage: [const char*] into one of the
    static strings, and the [data()] of the static arrays.  A [CharPtr]
    names the string it points into, not an address: [FunctionNameData T i]
    is the [data()] of the string that element [i] of the function names
    of [T] holds when the pointer is followed.  The address behind it,
    which a new assignment of the string may change, is not modelled;
    that two stored pointers are equal says nothing of their addresses,
    and the properties below only read through pointers in the state at
    hand. *)
Inductive CharPtr : Type :=
  | NullChars
  | InterfaceNameData (T : Iface)
  | FunctionNameData (T : Iface) (function_index : nat).

Inductive FunctionArrayPtr : Type :=
  | NullFunctions
  | FunctionInfoData (T : Iface).

Inductive InterfaceArrayPtr : Type :=
  | NullInterfaces
  | InterfaceInfoData (Interfaces : list Iface).

(** The address of the static [m_linker_export_info] of
    [LinkerExportInfoRegister<Interfaces...>]. *)
Inductive LinkerExportInfoPtr : Type :=
  | LinkerExportInfoAddr (Interfaces : list Iface).

Record InterfaceFunctionExportInfo : Type := {
  m_function_name : CharPtr;
  m_function_id : Z;
  m_function_checksum : Z;
  m_host_callback : option (InterfaceFunctionHostCallback Host);
}.

Record InterfaceExportInfo : Type := {
  m_interface_name : CharPtr;
  m_interaface_id : Z;
  m_interface_checksum : Z;
  m_interface_type_hash : Z;
  m_member_function_array : FunctionArrayPtr;
  m_member_function_count : nat;
}.

Record LinkerExportInfo : Type := {
  m_interface_array : InterfaceArrayPtr;
  m_interface_count : nat;
}.

(** The function-local statics, one per template instantiation: those of
    [fillInterfaceExportInfo] per interface type, those of
    [generateLinkerExportInfo] per pack of interface types.  A key is
    absent until control first passes the declaration.  [fill_trace]
    records [T] at each run of [fillInterfaceExportInfo] of [T]. *)
Record Statics : Type := {
  interface_name : gmap Iface string;
  function_info_array : gmap Iface (list InterfaceFunctionExportInfo);
  function_name_array : gmap Iface (list string);
  m_interface_export_info_array : gmap (list Iface) (list InterfaceExportInfo);
  m_linker_export_info : gmap (list Iface) LinkerExportInfo;
  fill_trace : list Iface;
}.

(** Before the first call. *)
Definition no_statics : Statics :=
  {| interface_name := ∅; function_info_array := ∅;
     function_name_array := ∅; m_interface_export_info_array := ∅;
     m_linker_export_info := ∅; fill_trace := [] |}.

(** The elements of the static arrays before anything is assigned. *)
Definition empty_function_info : InterfaceFunctionExportInfo :=
  {| m_function_name := NullChars; m_function_id := 0;
     m_function_checksum := 0; m_host_callback := None |}.

Definition empty_interface_info : InterfaceExportInfo :=
  {| m_interface_name := NullChars; m_interaface_id := 0;
     m_interface_checksum := 0; m_interface_type_hash := 0;
     m_member_function_array := NullFunctions;
     m_member_function_count := 0 |}.

Definition empty_linker_info : LinkerExportInfo :=
  {| m_interface_array := NullInterfaces; m_interface_count := 0 |}.

(** A [static] declaration with an initialiser: it runs the first time
    only. *)
Definition init_once {K V : Type} `{Countable K}
    (k : K) (v : V) (m : gmap K V) : gmap K V :=
  match m !! k with
  | Some _ => m
  | None => <[k := v]> m
  end.

(** [array[i] = x] on the static array of key [k]. *)
Definition assign_at {K V : Type} `{Countable K}
    (k : K) (i : nat) (x : V) (m : gmap K (list V)) : gmap K (list V) :=
  alter (fun array => <[i := x]> array) k m.

(** The three [static] declarations opening [fillInterfaceExportInfo]. *)
Definition fill_statics (T : Iface) (st : Statics) : Statics :=
  let n := getMemberFunctionCount (interfaceInfo T) in
  {| interface_name :=
       init_once T (getWitFullInterfaceName (interfaceInfo T))
                 (interface_name st);
     function_info_array :=
       init_once T (replicate n empty_function_info) (function_info_array st);
     function_name_array :=
       init_once T (replicate n EmptyString) (function_name_array st);
     m_interface_export_info_array := m_interface_export_info_array st;
     m_linker_export_info := m_linker_export_info st;
     fill_trace := fill_trace st |}.

(** The visitor passed to [iteratorMemberFunctions], with the captured
    [function_index] threaded through. *)
Definition fill_function (T : Iface) (acc : nat * Statics)
    (f : MemberFunction) : nat * Statics :=
  let '(function_index, st) := acc in
  let names :=
    assign_at T function_index (mf_wit_func_name f)
              (function_name_array st) in
  let infos :=
    assign_at T function_index
      {| m_function_name := FunctionNameData T function_index;
         m_function_id := mf_function_id f;
         m_function_checksum := mf_function_checksum f;
         m_host_callback := Some (generateCallback (mf_func_ptr f)) |}
      (function_info_array st) in
  (S function_index,
   {| interface_name := interface_name st;
      function_info_array := infos;
      function_name_array := names;
      m_interface_export_info_array := m_interface_export_info_array st;
      m_linker_export_info := m_linker_export_info st;
      fill_trace := fill_trace st |}).

(** [InterfaceExportInfoRegister<T>::fillInterfaceExportInfo]: the
    structure referred to by [interface_export_info] is passed in and
    handed back with its six members assigned. *)
Definition fillInterfaceExportInfo (T : Iface)
    (interface_export_info : InterfaceExportInfo) (st : Statics)
    : InterfaceExportInfo * Statics :=
  let st := fill_statics T st in
  let '(_, st) :=
    foldl (fill_function T) (0%nat, st)
          (memberFunctions (interfaceInfo T)) in
  let st :=
    {| interface_name := interface_name st;
       function_info_array := function_info_array st;
       function_name_array := function_name_array st;
       m_interface_export_info_array := m_interface_export_info_array st;
       m_linker_export_info := m_linker_export_info st;
       fill_trace := fill_trace st ++ [T] |} in
  ({| m_interface_name := InterfaceNameData T;
      m_interaface_id := getInterfaceId (interfaceInfo T);
      m_interface_checksum := getInterfaceChecksum (interfaceInfo T);
      m_interface_type_hash :=
        genCrc32StringID (typeid_name (interfaceInfo T));
      m_member_function_array := FunctionInfoData T;
      m_member_function_count :=
        getMemberFunctionCount (interfaceInfo T) |},
   st).

(** The two [static] declarations opening [generateLinkerExportInfo]. *)
Definition linker_statics (Interfaces : list Iface) (st : Statics) : Statics :=
  {| interface_name := interface_name st;
     function_info_array := function_info_array st;
     function_name_array := function_name_array st;
     m_interface_export_info_array :=
       init_once Interfaces
                 (replicate (length Interfaces) empty_interface_info)
                 (m_interface_export_info_array st);
     m_linker_export_info :=
       init_once Interfaces empty_linker_info (m_linker_export_info st);
     fill_trace := fill_trace st |}.

(** [m_interface_export_info_array[index]] of the pack [Interfaces]. *)
Definition slot_at (Interfaces : list Iface) (index : nat) (st : Statics)
    : InterfaceExportInfo :=
  default empty_interface_info
          (m_interface_export_info_array st !! Interfaces ≫= (.!! index)).

(** One element of the initializer list:
    [fillInterfaceExportInfo(m_interface_export_info_array[index++])]. *)
Definition fill_interface (Interfaces : list Iface) (acc : nat * Statics)
    (T : Iface) : nat * Statics :=
  let '(index, st) := acc in
  let '(slot, st) :=
    fillInterfaceExportInfo T (slot_at Interfaces index st) st in
  (S index,
   {| interface_name := interface_name st;
      function_info_array := function_info_array st;
      function_name_array := function_name_array st;
      m_interface_export_info_array :=
        assign_at Interfaces index slot (m_interface_export_info_array st);
      m_linker_export_info := m_linker_export_info st;
      fill_trace := fill_trace st |}).

(** [LinkerExportInfoRegister<Interfaces...>::generateLinkerExportInfo]. *)
Definition generateLinkerExportInfo (Interfaces : list Iface) (st : Statics)
    : LinkerExportInfoPtr * Statics :=
  let st := linker_statics Interfaces st in
  let '(_, st) := foldl (fill_interface Interfaces) (0%nat, st) Interfaces in
  let st :=
    {| interface_name := interface_name st;
       function_info_array := function_info_array st;
       function_name_array := function_name_array st;
       m_interface_export_info_array := m_interface_export_info_array st;
       m_linker_export_info :=
         <[Interfaces :=
             {| m_interface_array := InterfaceInfoData Interfaces;
                m_interface_count := length Interfaces |}]>
           (m_linker_export_info st);
       fill_trace := fill_trace st |} in
  (LinkerExportInfoAddr Interfaces, st).

(** Modelled from the spec: the exported entry point
    [link_interfaces(version_checksum)], of which the header declares the
    type [DLLExportLinkInterfacesFn] only.  It hands out the registry of
    the pack of interfaces built into the module; the checksum is for the
    loader to compare and the assembler does not branch on it. *)
Definition link_interfaces (Interfaces : list Iface) (version_checksum : Z)
    (st : Statics) : LinkerExportInfoPtr * Statics :=
  generateLinkerExportInfo Interfaces st.

(** *** What a loader reads through the returned pointer *)

Definition read_chars (st : Statics) (p : CharPtr) : option string :=
  match p with
  | NullChars => None
  | InterfaceNameData T => interface_name st !! T
  | FunctionNameData T function_index =>
      function_name_array st !! T ≫= (.!! function_index)
  end.

Record FunctionView : Type := {
  fv_name : option string;
  fv_id : Z;
  fv_checksum : Z;
  fv_callback : option (InterfaceFunctionHostCallback Host);
}.

Record InterfaceView : Type := {
  iv_name : option string;
  iv_id : Z;
  iv_checksum : Z;
  iv_type_hash : Z;
  iv_functions : option (list FunctionView);
}.

Definition view_function (st : Statics) (f : InterfaceFunctionExportInfo)
    : FunctionView :=
  {| fv_name := read_chars st (m_function_name f);
     fv_id := m_function_id f;
     fv_checksum := m_function_checksum f;
     fv_callback := m_host_callback f |}.

Definition read_functions (st : Statics) (p : FunctionArrayPtr) (count : nat)
    : option (list InterfaceFunctionExportInfo) :=
  match p with
  | NullFunctions => None
  | FunctionInfoData T => take count <$> function_info_array st !! T
  end.

Definition view_interface (st : Statics) (d : InterfaceExportInfo)
    : InterfaceView :=
  {| iv_name := read_chars st (m_interface_name d);
     iv_id := m_interaface_id d;
     iv_checksum := m_interface_checksum d;
     iv_type_hash := m_interface_type_hash d;
     iv_functions :=
       (fun array : list InterfaceFunctionExportInfo =>
          view_function st <$> array) <$>
         read_functions st (m_member_function_array d)
                        (m_member_function_count d) |}.

Definition read_interfaces (st : Statics) (p : InterfaceArrayPtr) (count : nat)
    : option (list InterfaceExportInfo) :=
  match p with
  | NullInterfaces => None
  | InterfaceInfoData Interfaces =>
      take count <$> m_interface_export_info_array st !! Interfaces
  end.

(** The registry behind [p]: the interface descriptors in array order,
    with every pointer followed. *)
Definition registry_view (st : Statics) (p : LinkerExportInfoPtr)
    : option (list InterfaceView) :=
  let 'LinkerExportInfoAddr Interfaces := p in
  match m_linker_export_info st !! Interfaces with
  | None => None
  | Some info =>
      (fun array : list InterfaceExportInfo => view_interface st <$> array) <$>
        read_interfaces st (m_interface_array info) (m_interface_count info)
  end.

(** The (interface id, checksum) pairs of a registry. *)
Definition id_pairs (views : list InterfaceView) : list (Z * Z) :=
  (fun v => (iv_id v, iv_checksum v)) <$> views.

(** *** The descriptors the metadata prescribes *)

Definition function_view_of (f : MemberFunction) : FunctionView :=
  {| fv_name := Some (mf_wit_func_name f);
     fv_id := mf_function_id f;
     fv_checksum := mf_function_checksum f;
     fv_callback := Some (generateCallback (mf_func_ptr f)) |}.

Definition interface_view_of (T : Iface) : InterfaceView :=
  {| iv_name := Some (getWitFullInterfaceName (interfaceInfo T));
     iv_id := getInterfaceId (interfaceInfo T);
     iv_checksum := getInterfaceChecksum (interfaceInfo T);
     iv_type_hash := genCrc32StringID (typeid_name (interfaceInfo T));
     iv_functions :=
       Some (function_view_of <$> memberFunctions (interfaceInfo T)) |}.

(** The statics the code can reach: an array has the size its type gives
    it, and a stored interface name is the one its initialiser gave. *)
Record statics_wf (st : Statics) : Prop := {
  wf_interface_name : forall T s,
    interface_name st !! T = Some s ->
    s = getWitFullInterfaceName (interfaceInfo T);
  wf_function_info_array : forall T array,
    function_info_array st !! T = Some array ->
    length array = getMemberFunctionCount (interfaceInfo T);
  wf_function_name_array : forall T array,
    function_name_array st !! T = Some array ->
    length array = getMemberFunctionCount (interfaceInfo T);
  wf_interface_export_info_array : forall Interfaces array,
    m_interface_export_info_array st !! Interfaces = Some array ->
    length array = length Interfaces;
}.

(** *** The builders' effects in closed form *)

(** The assignments [array[k] = g k x0; array[k+1] = g (k+1) x1; ...]. *)
Fixpoint assign_from {A B : Type} (g : nat -> B -> A) (k : nat) (l : list B)
    (array : list A) : list A :=
  match l with
  | [] => array
  | x :: l => assign_from g (S k) l (<[k := g k x]> array)
  end.

(** [m[T] = g T] for each [T] of [l], from first to last. *)
Definition insert_all {V : Type} (g : Iface -> V) (l : list Iface)
    (m : gmap Iface V) : gmap Iface V :=
  foldl (fun m T => <[T := g T]> m) m l.

Definition function_info_of (T : Iface) (function_index : nat)
    (f : MemberFunction) : InterfaceFunctionExportInfo :=
  {| m_function_name := FunctionNameData T function_index;
     m_function_id := mf_function_id f;
     m_function_checksum := mf_function_checksum f;
     m_host_callback := Some (generateCallback (mf_func_ptr f)) |}.

Definition function_infos_of (T : Iface) : list InterfaceFunctionExportInfo :=
  imap (function_info_of T) (memberFunctions (interfaceInfo T)).

Definition function_names_of (T : Iface) : list string :=
  mf_wit_func_name <$> memberFunctions (interfaceInfo T).

Definition interface_name_of (T : Iface) : string :=
  getWitFullInterfaceName (interfaceInfo T).

Definition interface_info_of (T : Iface) : InterfaceExportInfo :=
  {| m_interface_name := InterfaceNameData T;
     m_interaface_id := getInterfaceId (interfaceInfo T);
     m_interface_checksum := getInterfaceChecksum (interfaceInfo T);
     m_interface_type_hash :=
       genCrc32StringID (typeid_name (interfaceInfo T));
     m_member_function_array := FunctionInfoData T;
     m_member_function_count :=
       getMemberFunctionCount (interfaceInfo T) |}.

(** The statics after the descriptors of the types [l] have been filled,
    the descriptors themselves apart. *)
Definition filled (l : list Iface) (st : Statics) : Statics :=
  {| interface_name := insert_all interface_name_of l (interface_name st);
     function_info_array :=
       insert_all function_infos_of l (function_info_array st);
     function_name_array :=
       insert_all function_names_of l (function_name_array st);
     m_interface_export_info_array := m_interface_export_info_array st;
     m_linker_export_info := m_linker_export_info st;
     fill_trace := fill_trace st ++ l |}.

(** The statics after [generateLinkerExportInfo] of the pack
    [Interfaces]. *)
Definition assembled (Interfaces : list Iface) (st : Statics) : Statics :=
  let st := filled Interfaces st in
  {| interface_name := interface_name st;
     function_info_array := function_info_array st;
     function_name_array := function_name_array st;
     m_interface_export_info_array :=
       <[Interfaces := interface_info_of <$> Interfaces]>
         (m_interface_export_info_array st);
     m_linker_export_info :=
       <[Interfaces :=
           {| m_interface_array := InterfaceInfoData Interfaces;
              m_interface_count := length Interfaces |}]>
         (m_linker_export_info st);
     fill_trace := fill_trace st |}.

End Registry.

Arguments mf_func_ptr {Host} _.
Arguments mf_func_name {Host} _.
Arguments mf_wit_func_name {Host} _.
Arguments mf_function_id {Host} _.
Arguments mf_function_checksum {Host} _.
Arguments getWitFullInterfaceName {Host} _.
Arguments getInterfaceId {Host} _.
Arguments getInterfaceChecksum {Host} _.
Arguments typeid_name {Host} _.
Arguments memberFunctions {Host} _.
Arguments getMemberFunctionCount {Host} _.
Arguments NullChars {Iface}.
Arguments InterfaceNameData {Iface} _.
Arguments FunctionNameData {Iface} _ _.
Arguments NullFunctions {Iface}.
Arguments FunctionInfoData {Iface} _.
Arguments NullInterfaces {Iface}.
Arguments InterfaceInfoData {Iface} _.
Arguments LinkerExportInfoAddr {Iface} _.
Arguments m_function_name {Host Iface} _.
Arguments m_function_id {Host Iface} _.
Arguments m_function_checksum {Host Iface} _.
Arguments m_host_callback {Host Iface} _.
Arguments m_interface_name {Iface} _.
Arguments m_interaface_id {Iface} _.
Arguments m_interface_checksum {Iface} _.
Arguments m_interface_type_hash {Iface} _.
Arguments m_member_function_array {Iface} _.
Arguments m_member_function_count {Iface} _.
Arguments m_interface_array {Iface} _.
Arguments m_interface_count {Iface} _.
Arguments interface_name {Host Iface _ _} _.
Arguments function_info_array {Host Iface _ _} _.
Arguments function_name_array {Host Iface _ _} _.
Arguments m_interface_export_info_array {Host Iface _ _} _.
Arguments m_linker_export_info {Host Iface _ _} _.
Arguments fill_trace {Host Iface _ _} _.
Arguments no_statics {Host Iface _ _}.
Arguments empty_function_info {Host Iface}.
Arguments empty_interface_info {Iface}.
Arguments empty_linker_info {Iface}.
Arguments fill_statics {Host Iface _ _} _ _ _.
Arguments fill_function {Host Iface _ _} _ _ _.
Arguments fillInterfaceExportInfo {Host Iface _ _} _ _ _ _ _.
Arguments linker_statics {Host Iface _ _} _ _.
Arguments slot_at {Host Iface _ _} _ _ _.
Arguments fill_interface {Host Iface _ _} _ _ _ _ _.
Arguments generateLinkerExportInfo {Host Iface _ _} _ _ _ _.
Arguments link_interfaces {Host Iface _ _} _ _ _ _ _.
Arguments read_chars {Host Iface _ _} _ _.
Arguments fv_name {Host} _.
Arguments fv_id {Host} _.
Arguments fv_checksum {Host} _.
Arguments fv_callback {Host} _.
Arguments iv_name {Host} _.
Arguments iv_id {Host} _.
Arguments iv_checksum {Host} _.
Arguments iv_type_hash {Host} _.
Arguments iv_functions {Host} _.
Arguments view_function {Host Iface _ _} _ _.
Arguments read_functions {Host Iface _ _} _ _ _.
Arguments view_interface {Host Iface _ _} _ _.
Arguments read_interfaces {Host Iface _ _} _ _ _.
Arguments registry_view {Host Iface _ _} _ _.
Arguments id_pairs {Host} _.
Arguments function_view_of {Host} _.
Arguments interface_view_of {Host Iface} _ _ _.
Arguments statics_wf {Host Iface _ _} _ _.
Arguments assign_from {A B} _ _ _ _.
Arguments insert_all {Iface _ _ V} _ _ _.
Arguments function_info_of {Host Iface} _ _ _.
Arguments function_infos_of {Host Iface} _ _.
Arguments function_names_of {Host Iface} _ _.
Arguments interface_name_of {Host Iface} _ _.
Arguments interface_info_of {Host Iface} _ _ _.
Arguments filled {Host Iface _ _} _ _ _.
Arguments assembled {Host Iface _ _} _ _ _ _.

(** ** Notions used to state further properties *)

(** The world [w] with another log. *)
Definition with_log {Host : Type} (lg : list LogEvent) (w : World Host)
    : World Host :=
  {| w_host := w_host w; w_calls := w_calls w; w_log := lg |}.

(** The statics after one run of the assembler for each pack of [packs],
    from first to last. *)
Definition run_packs {Host Iface : Type} `{Countable Iface}
    (interfaceInfo : Iface -> InterfaceInfo Host)
    (genCrc32StringID : string -> Z)
    (packs : list (list Iface)) (st : Statics Host Iface)
    : Statics Host Iface :=
  foldl (fun st Interfaces =>
           (generateLinkerExportInfo interfaceInfo genCrc32StringID
                                     Interfaces st).2)
        st packs.

(** The static storage holds the registry of the pack [Interfaces]: its
    two structures, and the strings and function arrays of its types. *)
Definition pack_stored {Host Iface : Type} `{Countable Iface}
    (interfaceInfo : Iface -> InterfaceInfo Host)
    (genCrc32StringID : string -> Z)
    (Interfaces : list Iface) (st : Statics Host Iface) : Prop :=
  m_linker_export_info st !! Interfaces
    = Some {| m_interface_array := InterfaceInfoData Interfaces;
              m_interface_count := length Interfaces |} /\
  m_interface_export_info_array st !! Interfaces
    = Some (interface_info_of interfaceInfo genCrc32StringID <$> Interfaces) /\
  forall T, T ∈ Interfaces ->
    interface_name st !! T = Some (interface_name_of interfaceInfo T) /\
    function_info_array st !! T = Some (function_infos_of interfaceInfo T) /\
    function_name_array st !! T = Some (function_names_of interfaceInfo T).

(** ** A small host, for evaluating the definitions *)

Module Sample.

(** The host is one counter; [bump] adds its argument to it and returns
    the new count, [reset] clears it, [peek] reads it. *)
Definition bump : Method Z :=
  {| m_args := [NInt32]; m_ret := Some NUInt64;
     m_body := fun _ actuals h =>
                 let h' := h + default 0 (actuals !! 0%nat) in
                 (h', h') |}.

Definition reset : Method Z :=
  {| m_args := []; m_ret := None; m_body := fun _ _ _ => (0, 0) |}.

Definition peek : Method Z :=
  {| m_args := []; m_ret := Some NInt64; m_body := fun _ _ h => (h, h) |}.

Definition start : World Z := {| w_host := 35; w_calls := []; w_log := [] |}.

(** Two interface types and their metadata. *)
Inductive iface : Type := ICounter | IClock.

#[global] Instance iface_eq_dec : EqDecision iface.
Proof. solve_decision. Defined.

#[global] Instance iface_countable : Countable iface.
Proof.
  refine (inj_countable' (fun T => match T with ICounter => false | IClock => true end)
                         (fun b => if b then IClock else ICounter) _).
  intros []; reflexivity.
Defined.

Definition info (T : iface) : InterfaceInfo Z :=
  match T with
  | ICounter =>
      {| getWitFullInterfaceName := "arieo:sample/counter";
         getInterfaceId := 11; getInterfaceChecksum := 1001;
         typeid_name := "ICounter";
         memberFunctions :=
           [ {| mf_func_ptr := bump; mf_func_name := "bump";
                mf_wit_func_name := "bump"; mf_function_id := 1;
                mf_function_checksum := 101 |};
             {| mf_func_ptr := reset; mf_func_name := "reset";
                mf_wit_func_name := "reset"; mf_function_id := 2;
                mf_function_checksum := 102 |} ] |}
  | IClock =>
      {| getWitFullInterfaceName := "arieo:sample/clock";
         getInterfaceId := 12; getInterfaceChecksum := 1002;
         typeid_name := "IClock";
         memberFunctions :=
           [ {| mf_func_ptr := peek; mf_func_name := "peek";
                mf_wit_func_name := "peek"; mf_function_id := 1;
                mf_function_checksum := 201 |} ] |}
  end.

(** A stand-in for the string hash. *)
Definition crc (s : string) : Z := Z.of_nat (String.length s).

End Sample.

Module SampleMore.

(** A method with two parameters whose result type the converter does not
    know. *)
Definition ticks : Method Z :=
  {| m_args := [NInt64; NDouble]; m_ret := Some NUInt32;
     m_body := fun _ _ h => (h, 7) |}.

End SampleMore.

(** * Properties *)

(** ** Machine integers *)

Section IntFacts.

Import Int.

Lemma to_s32_id z : is_s32 z -> to_s32 z = z.
Proof.
  unfold is_s32, to_s32, two32. intros Hz.
  rewrite Z.mod_small; lia.
Qed.

Lemma to_s64_id z : is_s64 z -> to_s64 z = z.
Proof.
  unfold is_s64, to_s64, two64. intros Hz.
  rewrite Z.mod_small; lia.
Qed.

Lemma to_u64_id z : is_u64 z -> to_u64 z = z.
Proof.
  unfold is_u64, to_u64, two64. intros Hz.
  rewrite Z.mod_small; lia.
Qed.

Lemma to_s64_range z : is_s64 (to_s64 z).
Proof.
  unfold is_s64, to_s64, two64.
  pose proof (Z.mod_pos_bound (z + 2 ^ 63) (2 ^ 64)). lia.
Qed.

(** A [u64] payload below [2^63] keeps its value as [int64_t]; one from
    [2^63] on becomes negative. *)
Lemma to_s64_of_u64 z :
  is_u64 z ->
  to_s64 z = if bool_decide (z < 2 ^ 63) then z else z - two64.
Proof.
  unfold is_u64, to_s64, two64. intros Hz.
  case_bool_decide.
  - rewrite Z.mod_small; lia.
  - replace (z + 2 ^ 63) with ((z - 2 ^ 63) + 1 * 2 ^ 64) by lia.
    rewrite Z.mod_add by lia. rewrite Z.mod_small; lia.
Qed.

End IntFacts.

(** ** The typed value converter *)

Section ConverterFacts.

Lemma createResultVal_wf T v : native_range T v -> val_wf (createResultVal T v).
Proof.
  destruct T; simpl; intros Hv.
  - by rewrite to_s32_id.
  - by rewrite to_s64_id.
  - by rewrite to_u64_id.
  - done.
  - done.
  - by vm_compute.
Qed.

Lemma tag_of_createResultVal T v : tag_of (createResultVal T v) = tag_for T.
Proof. by destruct T. Qed.

Lemma extract_create T v index :
  supported T = true -> native_range T v ->
  extractValue T (createResultVal T v) index = v.
Proof.
  destruct T; simpl; intros Hs Hv; try done.
  - by apply to_s32_id.
  - by apply to_s64_id.
  - by apply to_u64_id.
Qed.

(** C2: for each of the five supported native types and each value [v]
    of the type, wrapping [v], extracting at the same type and wrapping
    again gives the typed value that wrapping [v] gave; the wrapped value
    carries the tag of the type and the extraction gives [v] back. *)
Theorem wrap_extract_wrap (T : NativeTy) (v : Z) (index : nat) :
  supported T = true ->
  native_range T v ->
  tag_of (createResultVal T v) = tag_for T /\
  extractValue T (createResultVal T v) index = v /\
  createResultVal T (extractValue T (createResultVal T v) index)
    = createResultVal T v.
Proof.
  intros Hs Hv. split; [apply tag_of_createResultVal |].
  split; [by apply extract_create |].
  by rewrite extract_create.
Qed.

(** C3, as the code has it: at a supported type [T], a typed value whose
    tag is not the tag of [T] extracts to the zero of [T], except that a
    [u64] value extracts at [int64_t] to its payload converted to
    [int64_t].  The function is total: there is no failure to report. *)
Theorem extract_mismatch (T : NativeTy) (val : Val) (index : nat) :
  supported T = true ->
  tag_of val <> tag_for T ->
  ((T <> NInt64 \/ tag_of val <> KU64) ->
     extractValue T val index = zero_value T) /\
  (forall z, T = NInt64 -> val = VU64 z ->
     extractValue T val index = Int.to_s64 z).
Proof.
  intros Hs Htag. split.
  - intros Hcase.
    destruct T, val; simpl in *; try done; destruct Hcase; done.
  - by intros z -> ->.
Qed.

End ConverterFacts.

(** ** Generated callbacks *)

Section CallbackFacts.

Context {Host : Type}.
Implicit Types (func_ptr : Method Host) (args results : list Val)
  (w : World Host).

(** Too few inputs, or a null handle: two messages are logged and
    nothing else happens. *)
Lemma callback_reject func_ptr args results w :
  ~ accepted func_ptr args ->
  exists e, is_error e /\
    generateCallback func_ptr args results w
      = (log e (log (InfoInvoked (length args)) w), results, ROk).
Proof.
  intros Hrej. unfold generateCallback, generateCallbackImpl.
  case_bool_decide as Hlen.
  - by eexists (ErrorInsufficient _ _).
  - case_bool_decide as Hnull.
    + by eexists (ErrorInvalidInstance _).
    + exfalso. apply Hrej. split; [lia | exact Hnull].
Qed.

(** Enough inputs and a handle that is not null: the method is called
    once, on the extracted arguments. *)
Lemma callback_accept func_ptr args results w :
  accepted func_ptr args ->
  exists lg,
    generateCallback func_ptr args results w
      = ({| w_host := method_effect func_ptr args w;
            w_calls := w_calls w ++ [invocation_of func_ptr args];
            w_log := w_log w ++ lg |},
         match m_ret func_ptr with
         | None => results
         | Some Ret =>
             if bool_decide (0 < length results)%nat
             then <[0%nat := createResultVal Ret
                                (method_result func_ptr args w)]> results
             else results
         end,
         ROk).
Proof.
  intros [Hlen Hnull]. unfold generateCallback, generateCallbackImpl.
  rewrite bool_decide_eq_false_2 by lia.
  rewrite bool_decide_eq_false_2 by exact Hnull.
  unfold method_effect, method_result, invocation_of, call_method.
  fold (handle_of args). simpl.
  destruct (m_body func_ptr (handle_of args)
              (extract_actuals (m_args func_ptr) args) (w_host w))
    as [h r] eqn:Hbody.
  destruct (m_ret func_ptr) as [Ret |]; simpl.
  - eexists. unfold log, log_all. simpl.
    rewrite <- !app_assoc. reflexivity.
  - eexists. unfold log, log_all. simpl.
    rewrite <- !app_assoc. reflexivity.
Qed.

(** C1: a callback given fewer than [1 + parameter_count] inputs, or a
    first input that decodes to the null handle, makes no call of the
    wrapped method (the trace of calls and the host objects are as
    before), leaves the outputs alone, logs an error after the entry
    message and returns success. *)
Theorem callback_rejects_without_invoking func_ptr args results w :
  (length args < 1 + length (m_args func_ptr))%nat \/ handle_of args = 0 ->
  exists w' e,
    generateCallback func_ptr args results w = (w', results, ROk) /\
    w_calls w' = w_calls w /\
    w_host w' = w_host w /\
    is_error e /\
    w_log w' = w_log w ++ [InfoInvoked (length args); e].
Proof.
  intros Hbad.
  destruct (callback_reject func_ptr args results w) as (e & He & Hrun).
  { intros [Hlen Hnull]. destruct Hbad; [lia | done]. }
  exists (log e (log (InfoInvoked (length args)) w)), e.
  split; [exact Hrun |]. repeat split; [exact He |].
  simpl. by rewrite <- app_assoc.
Qed.

(** C4: the callback of a method with one [int32_t] parameter and a
    [uint64_t] result, called on a valid handle followed by [s32(7)] and
    with one output slot, calls the method once, with the argument [7],
    and stores the method's result in [output[0]] under the tag [u64]. *)
Theorem callback_u64_result func_ptr handle slot w :
  m_args func_ptr = [NInt32] ->
  m_ret func_ptr = Some NUInt64 ->
  extractValue NInt64 handle 0 <> 0 ->
  Int.is_u64
    (m_body func_ptr (extractValue NInt64 handle 0) [7] (w_host w)).2 ->
  exists w',
    generateCallback func_ptr [handle; VS32 7] [slot] w
      = (w',
         [VU64 (m_body func_ptr (extractValue NInt64 handle 0) [7]
                       (w_host w)).2],
         ROk) /\
    w_calls w' = w_calls w ++
      [{| inv_method := func_ptr;
          inv_instance := extractValue NInt64 handle 0;
          inv_actuals := [7] |}] /\
    w_host w'
      = (m_body func_ptr (extractValue NInt64 handle 0) [7] (w_host w)).1.
Proof.
  intros Hargs Hret Hhandle Hrange.
  destruct (callback_accept func_ptr [handle; VS32 7] [slot] w)
    as (lg & Hrun).
  { split; [rewrite Hargs; simpl; lia | exact Hhandle]. }
  rewrite Hrun, Hret.
  unfold method_result, method_effect, invocation_of, handle_of.
  rewrite Hargs. simpl.
  rewrite to_u64_id by exact Hrange.
  eexists. split; [reflexivity |]. done.
Qed.

(** C7, as the code has it: the callback of a method without parameters
    calls the method if and only if it is given at least one input and
    the first input decodes to a handle that is not null; inputs after
    the first are ignored. *)
Theorem zero_parameter_callback func_ptr args results w :
  m_args func_ptr = [] ->
  (w_calls (generateCallback func_ptr args results w).1.1
     = w_calls w ++
         [{| inv_method := func_ptr; inv_instance := handle_of args;
             inv_actuals := [] |}]
   <-> (1 <= length args)%nat /\ handle_of args <> 0) /\
  (w_calls (generateCallback func_ptr args results w).1.1 = w_calls w
   <-> ~ ((1 <= length args)%nat /\ handle_of args <> 0)).
Proof.
  intros Hargs.
  assert (Hacc : accepted func_ptr args
                 <-> (1 <= length args)%nat /\ handle_of args <> 0).
  { unfold accepted. rewrite Hargs. simpl. tauto. }
  assert (Hne : forall (l : list (Invocation Host)) x, l ++ [x] <> l).
  { intros l x Heq. apply (f_equal length) in Heq.
    rewrite length_app in Heq. simpl in Heq. lia. }
  destruct (decide (accepted func_ptr args)) as [Hyes | Hno].
  - destruct (callback_accept func_ptr args results w Hyes) as (lg & Hrun).
    rewrite Hrun. unfold invocation_of. rewrite Hargs. simpl.
    split; split; try tauto.
    intros Heq. by apply Hne in Heq.
  - destruct (callback_reject func_ptr args results w Hno)
      as (e & _ & Hrun).
    rewrite Hrun. simpl.
    split; split; try tauto.
    intros Heq. symmetry in Heq. by apply Hne in Heq.
Qed.

(** C8: a callback leaves the output span as long as it was and writes
    at most [output[0]]: after a [void] method every slot is unchanged,
    after any method every slot but the first is. *)
Theorem callback_outputs_frame func_ptr args results w :
  length (generateCallback func_ptr args results w).1.2 = length results /\
  (m_ret func_ptr = None ->
     (generateCallback func_ptr args results w).1.2 = results) /\
  (forall i : nat, i <> 0%nat ->
     (generateCallback func_ptr args results w).1.2 !! i = results !! i).
Proof.
  destruct (decide (accepted func_ptr args)) as [Hyes | Hno].
  - destruct (callback_accept func_ptr args results w Hyes) as (lg & Hrun).
    rewrite Hrun. simpl.
    destruct (m_ret func_ptr) as [Ret |]; [| done].
    case_bool_decide; [| done].
    split; [apply length_insert |]. split; [done |].
    intros i Hi. by apply list_lookup_insert_ne.
  - destruct (callback_reject func_ptr args results w Hno)
      as (e & _ & Hrun).
    by rewrite Hrun.
Qed.

(** C10: the callback of a method that returns a value, given enough
    inputs and a valid handle but an empty output span, calls the method
    once all the same, stores its result nowhere and returns success. *)
Theorem callback_without_output_slot func_ptr Ret args w :
  m_ret func_ptr = Some Ret ->
  accepted func_ptr args ->
  exists w',
    generateCallback func_ptr args [] w = (w', [], ROk) /\
    w_calls w' = w_calls w ++ [invocation_of func_ptr args] /\
    w_host w' = method_effect func_ptr args w.
Proof.
  intros Hret Hyes.
  destruct (callback_accept func_ptr args [] w Hyes) as (lg & Hrun).
  rewrite Hrun, Hret. simpl. by eexists.
Qed.

End CallbackFacts.

(** ** Arrays and maps *)

Section StorageFacts.

Lemma assign_from_spec {A B : Type} (g : nat -> B -> A) (l : list B) :
  forall (k : nat) (array : list A),
    (k + length l <= length array)%nat ->
    assign_from g k l array
      = take k array ++ imap (fun i => g (k + i)%nat) l
          ++ drop (k + length l) array.
Proof.
  induction l as [| x l IH]; intros k array Hlen; simpl in *.
  - rewrite Nat.add_0_r. by rewrite take_drop.
  - rewrite IH by (rewrite length_insert; lia).
    rewrite (take_S_r _ k (g k x)) by (apply list_lookup_insert_eq; lia).
    rewrite take_insert_ge by lia.
    rewrite drop_insert_lt by lia.
    rewrite <- app_assoc. simpl. rewrite Nat.add_0_r.
    do 3 f_equal.
    + apply imap_ext. intros i y _. simpl. f_equal. lia.
    + f_equal. lia.
Qed.

Lemma assign_from_all {A B : Type} (g : nat -> B -> A) (l : list B)
    (array : list A) :
  length array = length l -> assign_from g 0 l array = imap g l.
Proof.
  intros Hlen. rewrite assign_from_spec by (simpl; lia).
  simpl. rewrite drop_ge by lia. by rewrite app_nil_r.
Qed.

Context `{Countable K} {V : Type}.
Implicit Types (m : gmap K V).

Lemma alter_present (f : V -> V) m k v :
  m !! k = Some v -> alter f k m = <[k := f v]> m.
Proof.
  intros Hk. rewrite <- (insert_id m k v) at 1 by done.
  apply alter_insert_eq.
Qed.

Lemma insert_init_once m k v dflt :
  <[k := v]> (init_once k dflt m) = <[k := v]> m.
Proof.
  unfold init_once. destruct (m !! k); [done |]. apply insert_insert_eq.
Qed.

Lemma lookup_init_once m k dflt :
  init_once k dflt m !! k = Some (default dflt (m !! k)).
Proof.
  unfold init_once. destruct (m !! k) eqn:Hk; simpl; [done |].
  apply lookup_insert_eq.
Qed.

Lemma lookup_insert_all (g : K -> V) (l : list K) :
  forall m k,
    insert_all g l m !! k = if decide (k ∈ l) then Some (g k) else m !! k.
Proof.
  unfold insert_all.
  induction l as [| T l IH] using rev_ind; intros m k.
  - cbn [foldl]. case_decide as Hin; [| done]. by apply elem_of_nil in Hin.
  - rewrite foldl_app. cbn [foldl].
    destruct (decide (T = k)) as [-> | Hne].
    + rewrite lookup_insert_eq. case_decide as Hin; [done |].
      exfalso. apply Hin, elem_of_app. right. by apply list_elem_of_singleton.
    + rewrite lookup_insert_ne by done. rewrite IH.
      destruct (decide (k ∈ l)) as [Hin | Hin].
      * rewrite decide_True; [done |]. apply elem_of_app. by left.
      * rewrite decide_False; [done |].
        intros [Hk | Hk]%elem_of_app; [done |].
        apply list_elem_of_singleton in Hk. congruence.
Qed.

Lemma init_once_agree m k dflt :
  (forall v, m !! k = Some v -> v = dflt) ->
  init_once k dflt m = <[k := dflt]> m.
Proof.
  intros Hagree. unfold init_once. destruct (m !! k) as [v |] eqn:Hk; [| done].
  rewrite (Hagree v eq_refl) in Hk. by rewrite insert_id.
Qed.

Lemma insert_all_app (g : K -> V) (l1 l2 : list K) m :
  insert_all g (l1 ++ l2) m = insert_all g l2 (insert_all g l1 m).
Proof. apply foldl_app. Qed.

End StorageFacts.

(** ** The descriptor builder and the registry assembler *)

Section RegistryFacts.

Context {Host Iface : Type} `{Countable Iface}.
Variable interfaceInfo : Iface -> InterfaceInfo Host.
Variable genCrc32StringID : string -> Z.

Implicit Types (st : Statics Host Iface) (T : Iface)
  (Interfaces : list Iface).

Lemma no_statics_wf : statics_wf interfaceInfo (@no_statics Host Iface _ _).
Proof. split; simpl; intros ? ?; by rewrite lookup_empty. Qed.

(** The visits of [iteratorMemberFunctions], from index [k] on. *)
Lemma fill_functions_run T (l : list (MemberFunction Host)) :
  forall (k : nat) st infos names,
    function_info_array st !! T = Some infos ->
    function_name_array st !! T = Some names ->
    foldl (fill_function T) (k, st) l
      = ((k + length l)%nat,
         {| interface_name := interface_name st;
            function_info_array :=
              <[T := assign_from (function_info_of T) k l infos]>
                (function_info_array st);
            function_name_array :=
              <[T := assign_from (fun _ f => mf_wit_func_name f) k l names]>
                (function_name_array st);
            m_interface_export_info_array :=
              m_interface_export_info_array st;
            m_linker_export_info := m_linker_export_info st;
            fill_trace := fill_trace st |}).
Proof.
  induction l as [| f l IH]; intros k st infos names Hinfos Hnames.
  - cbn [foldl assign_from length]. rewrite Nat.add_0_r.
    rewrite !insert_id by done. by destruct st.
  - cbn [foldl assign_from length]. unfold fill_function at 2.
    unfold assign_at.
    rewrite (alter_present _ _ _ _ Hinfos), (alter_present _ _ _ _ Hnames).
    erewrite IH; cbn [function_info_array function_name_array];
      [| apply lookup_insert_eq | apply lookup_insert_eq].
    cbn. rewrite !insert_insert_eq.
    f_equal. lia.
Qed.

Lemma filled_wf (l : list Iface) st :
  statics_wf interfaceInfo st -> statics_wf interfaceInfo (filled interfaceInfo l st).
Proof.
  intros [Hname Hinfos Hnames Harray]. split; cbn.
  - intros T s. rewrite lookup_insert_all.
    case_decide; [by intros [= <-] | apply Hname].
  - intros T array. rewrite lookup_insert_all.
    case_decide; [| apply Hinfos].
    intros [= <-]. apply length_imap.
  - intros T array. rewrite lookup_insert_all.
    case_decide; [| apply Hnames].
    intros [= <-]. apply length_fmap.
  - exact Harray.
Qed.

(** Storing a descriptor array of the right size keeps the statics
    well formed. *)
Lemma store_descriptors_wf Interfaces array linker_info st :
  statics_wf interfaceInfo st ->
  length array = length Interfaces ->
  statics_wf interfaceInfo
    {| interface_name := interface_name st;
       function_info_array := function_info_array st;
       function_name_array := function_name_array st;
       m_interface_export_info_array :=
         <[Interfaces := array]> (m_interface_export_info_array st);
       m_linker_export_info := linker_info;
       fill_trace := fill_trace st |}.
Proof.
  intros [Hname Hinfos Hnames Harray] Hlen. split; cbn; try done.
  intros l array'. rewrite lookup_insert. case_decide as Hl.
  - intros [= <-]. by rewrite <- Hl.
  - apply Harray.
Qed.

(** One run of the descriptor builder on well-formed statics. *)
Lemma fillInterfaceExportInfo_run T slot st :
  statics_wf interfaceInfo st ->
  fillInterfaceExportInfo interfaceInfo genCrc32StringID T slot st
    = (interface_info_of interfaceInfo genCrc32StringID T,
       filled interfaceInfo [T] st).
Proof.
  intros [Hname Hinfos Hnames Harray]. unfold fillInterfaceExportInfo.
  erewrite fill_functions_run; cbn [function_info_array function_name_array fill_statics];
    [| apply lookup_init_once | apply lookup_init_once].
  cbn. rewrite !insert_init_once.
  rewrite !assign_from_all.
  - rewrite init_once_agree by exact (Hname T).
    unfold filled, insert_all. cbn [foldl].
    unfold function_names_of. rewrite <- (imap_const mf_wit_func_name).
    reflexivity.
  - destruct (function_name_array st !! T) as [names |] eqn:Hn; cbn.
    + by apply Hnames.
    + apply length_replicate.
  - destruct (function_info_array st !! T) as [infos |] eqn:Hi; cbn.
    + by apply Hinfos.
    + apply length_replicate.
Qed.

Lemma fill_interface_step Interfaces (k : nat) st T array :
  statics_wf interfaceInfo st ->
  m_interface_export_info_array st !! Interfaces = Some array ->
  fill_interface interfaceInfo genCrc32StringID Interfaces (k, st) T
    = (S k,
       let st' := filled interfaceInfo [T] st in
       {| interface_name := interface_name st';
          function_info_array := function_info_array st';
          function_name_array := function_name_array st';
          m_interface_export_info_array :=
            <[Interfaces :=
                <[k := interface_info_of interfaceInfo genCrc32StringID T]>
                  array]>
              (m_interface_export_info_array st);
          m_linker_export_info := m_linker_export_info st;
          fill_trace := fill_trace st' |}).
Proof.
  intros Hwf Harray. unfold fill_interface.
  rewrite fillInterfaceExportInfo_run by done.
  unfold assign_at. cbn [m_interface_export_info_array filled].
  by rewrite (alter_present _ _ _ _ Harray).
Qed.

(** The elements of the initializer list, from index [k] on. *)
Lemma fill_interfaces_run Interfaces (l : list Iface) :
  forall (k : nat) st array,
    statics_wf interfaceInfo st ->
    m_interface_export_info_array st !! Interfaces = Some array ->
    foldl (fill_interface interfaceInfo genCrc32StringID Interfaces)
          (k, st) l
      = ((k + length l)%nat,
         let st' := filled interfaceInfo l st in
         {| interface_name := interface_name st';
            function_info_array := function_info_array st';
            function_name_array := function_name_array st';
            m_interface_export_info_array :=
              <[Interfaces :=
                  assign_from
                    (fun _ T =>
                       interface_info_of interfaceInfo genCrc32StringID T)
                    k l array]>
                (m_interface_export_info_array st);
            m_linker_export_info := m_linker_export_info st;
            fill_trace := fill_trace st' |}).
Proof.
  induction l as [| T l IH]; intros k st array Hwf Harray.
  - cbn [foldl assign_from length]. rewrite Nat.add_0_r.
    rewrite insert_id by done. cbn. unfold insert_all. cbn.
    rewrite app_nil_r. by destruct st.
  - cbn [foldl assign_from length].
    rewrite (fill_interface_step _ _ _ _ _ Hwf Harray).
    erewrite IH;
      [| apply (store_descriptors_wf Interfaces _ _
                  (filled interfaceInfo [T] st));
         [by apply filled_wf | rewrite length_insert;
                               by eapply wf_interface_export_info_array]
       | apply lookup_insert_eq ].
    cbn. rewrite insert_insert_eq. rewrite <- !app_assoc.
    f_equal. lia.
Qed.

Lemma linker_statics_wf Interfaces st :
  statics_wf interfaceInfo st ->
  statics_wf interfaceInfo (linker_statics Interfaces st).
Proof.
  intros [Hname Hinfos Hnames Harray]. split; cbn; try done.
  intros l array. unfold init_once.
  destruct (m_interface_export_info_array st !! Interfaces) eqn:Hl;
    [apply Harray |].
  rewrite lookup_insert. case_decide as Heq; [| apply Harray].
  intros [= <-]. rewrite length_replicate. by rewrite Heq.
Qed.

(** One run of the registry assembler on well-formed statics. *)
Lemma generateLinkerExportInfo_run Interfaces st :
  statics_wf interfaceInfo st ->
  generateLinkerExportInfo interfaceInfo genCrc32StringID Interfaces st
    = (LinkerExportInfoAddr Interfaces,
       assembled interfaceInfo genCrc32StringID Interfaces st).
Proof.
  intros Hwf. unfold generateLinkerExportInfo.
  erewrite fill_interfaces_run;
    [| by apply linker_statics_wf | apply lookup_init_once].
  cbn. rewrite !insert_init_once.
  rewrite assign_from_all.
  - unfold assembled. cbn.
    by rewrite <- (imap_const
                    (interface_info_of interfaceInfo genCrc32StringID)).
  - destruct (m_interface_export_info_array st !! Interfaces)
      as [array |] eqn:Harray; cbn.
    + by eapply wf_interface_export_info_array.
    + apply length_replicate.
Qed.

Lemma assembled_wf Interfaces st :
  statics_wf interfaceInfo st ->
  statics_wf interfaceInfo
    (assembled interfaceInfo genCrc32StringID Interfaces st).
Proof.
  intros Hwf. unfold assembled.
  apply (store_descriptors_wf Interfaces _ _
           (filled interfaceInfo Interfaces st)).
  - by apply filled_wf.
  - apply length_fmap.
Qed.

(** Well-formedness is an invariant of the assembler. *)
Lemma generateLinkerExportInfo_wf Interfaces st :
  statics_wf interfaceInfo st ->
  statics_wf interfaceInfo
    (generateLinkerExportInfo interfaceInfo genCrc32StringID
                              Interfaces st).2.
Proof.
  intros Hwf. rewrite generateLinkerExportInfo_run by done.
  by apply assembled_wf.
Qed.

(** Following the pointers of a filled descriptor gives what the
    metadata of its type says. *)
Lemma view_interface_filled T st :
  interface_name st !! T = Some (interface_name_of interfaceInfo T) ->
  function_info_array st !! T = Some (function_infos_of interfaceInfo T) ->
  function_name_array st !! T = Some (function_names_of interfaceInfo T) ->
  view_interface st (interface_info_of interfaceInfo genCrc32StringID T)
    = interface_view_of interfaceInfo genCrc32StringID T.
Proof.
  intros Hname Hinfos Hnames.
  unfold view_interface, interface_view_of. cbn.
  rewrite Hname, Hinfos. cbn. do 2 f_equal.
  unfold function_infos_of, getMemberFunctionCount.
  rewrite take_ge by (by rewrite length_imap).
  apply list_eq. intros i.
  rewrite !list_lookup_fmap, list_lookup_imap.
  destruct (memberFunctions (interfaceInfo T) !! i) as [f |] eqn:Hf;
    [| done].
  cbn. f_equal. unfold view_function, function_view_of. cbn.
  rewrite Hnames. cbn. unfold function_names_of.
  by rewrite list_lookup_fmap, Hf.
Qed.

(** The registry read back after a run of the assembler. *)
Lemma registry_view_assembled Interfaces st :
  registry_view (assembled interfaceInfo genCrc32StringID Interfaces st)
                (LinkerExportInfoAddr Interfaces)
    = Some (interface_view_of interfaceInfo genCrc32StringID <$> Interfaces).
Proof.
  unfold registry_view, assembled.
  cbn [m_linker_export_info]. rewrite lookup_insert_eq.
  cbn [m_interface_array m_interface_count read_interfaces
       m_interface_export_info_array].
  rewrite lookup_insert_eq. cbn [fmap option_fmap option_map]. f_equal.
  rewrite take_ge by (by rewrite length_fmap).
  rewrite <- list_fmap_compose.
  apply list_fmap_ext. intros i T HT.
  apply list_elem_of_lookup_2 in HT. cbn.
  apply view_interface_filled; cbn; rewrite lookup_insert_all;
    by rewrite decide_True.
Qed.

(** C5, as the code has it: the registry of a pack of [K] interface
    types has [K] descriptors, the [i]-th one being the descriptor of the
    [i]-th type of the pack with the id and the checksum the metadata
    gives that type.  Nothing is compared: the pairs are distinct exactly
    when those of the supplied types are. *)
Theorem registry_descriptors_in_order Interfaces st :
  statics_wf interfaceInfo st ->
  exists views,
    registry_view
      (generateLinkerExportInfo interfaceInfo genCrc32StringID
                                Interfaces st).2
      (generateLinkerExportInfo interfaceInfo genCrc32StringID
                                Interfaces st).1
      = Some views /\
    length views = length Interfaces /\
    (forall (i : nat) T,
       Interfaces !! i = Some T ->
       views !! i
         = Some (interface_view_of interfaceInfo genCrc32StringID T)) /\
    id_pairs views
      = (fun T => (getInterfaceId (interfaceInfo T),
                   getInterfaceChecksum (interfaceInfo T))) <$> Interfaces /\
    (NoDup (id_pairs views) <->
     NoDup ((fun T => (getInterfaceId (interfaceInfo T),
                       getInterfaceChecksum (interfaceInfo T)))
              <$> Interfaces)).
Proof.
  intros Hwf. rewrite generateLinkerExportInfo_run by done. cbn [fst snd].
  rewrite registry_view_assembled.
  assert (Hpairs :
    id_pairs (interface_view_of interfaceInfo genCrc32StringID <$> Interfaces)
      = (fun T => (getInterfaceId (interfaceInfo T),
                   getInterfaceChecksum (interfaceInfo T))) <$> Interfaces).
  { unfold id_pairs. rewrite <- list_fmap_compose. done. }
  eexists. split; [reflexivity |].
  split; [apply length_fmap |].
  split; [| split; [exact Hpairs | by rewrite Hpairs]].
  intros i T HT. by rewrite list_lookup_fmap, HT.
Qed.

(** C6, as the code has it: a second run of the assembler returns the
    same pointer, and the registry read behind it after the second run is
    the registry read after the first, one descriptor per interface of
    the pack; but each run runs the descriptor builder of every interface
    of the pack, so the second run builds the descriptors again. *)
Theorem registry_rebuilt_identically Interfaces st :
  statics_wf interfaceInfo st ->
  let first :=
    generateLinkerExportInfo interfaceInfo genCrc32StringID Interfaces st in
  let second :=
    generateLinkerExportInfo interfaceInfo genCrc32StringID Interfaces
                             first.2 in
  second.1 = first.1 /\
  registry_view first.2 first.1
    = Some (interface_view_of interfaceInfo genCrc32StringID
              <$> Interfaces) /\
  registry_view second.2 second.1 = registry_view first.2 first.1 /\
  fill_trace first.2 = fill_trace st ++ Interfaces /\
  fill_trace second.2 = fill_trace first.2 ++ Interfaces.
Proof.
  intros Hwf first second. subst first second.
  rewrite (generateLinkerExportInfo_run Interfaces st) by done.
  cbn [fst snd].
  rewrite generateLinkerExportInfo_run by (by apply assembled_wf).
  cbn [fst snd]. rewrite !registry_view_assembled.
  split; [done |]. split; [done |]. split; [done |]. done.
Qed.

(** C9: the entry point returns the same pointer and leaves the same
    statics whatever checksum it is called with, and whatever the
    checksum the whole registry is read behind the pointer: nothing is
    compared and nothing is rejected. *)
Theorem link_interfaces_ignores_checksum Interfaces
    (version_checksum version_checksum' : Z) st :
  link_interfaces interfaceInfo genCrc32StringID Interfaces
                  version_checksum st
    = link_interfaces interfaceInfo genCrc32StringID Interfaces
                      version_checksum' st /\
  (statics_wf interfaceInfo st ->
   registry_view
     (link_interfaces interfaceInfo genCrc32StringID Interfaces
                      version_checksum st).2
     (link_interfaces interfaceInfo genCrc32StringID Interfaces
                      version_checksum st).1
     = Some (interface_view_of interfaceInfo genCrc32StringID
               <$> Interfaces)).
Proof.
  split; [reflexivity |].
  intros Hwf. unfold link_interfaces.
  rewrite generateLinkerExportInfo_run by done.
  apply registry_view_assembled.
Qed.

End RegistryFacts.

(** ** The properties on the sample host *)

Section Evaluation.

Import Sample.

(** A [u64(5)] read as [int64_t] is [5]: the tags differ and the result
    is not the zero value. *)
Lemma extract_u64_at_int64 :
  ~ (forall (T : NativeTy) (val : Val) (index : nat),
       supported T = true ->
       tag_of val <> tag_for T ->
       extractValue T val index = zero_value T).
Proof.
  intros Hclaim.
  assert (Hfive : extractValue NInt64 (VU64 5) 0 = zero_value NInt64)
    by (by apply Hclaim).
  vm_compute in Hfive. discriminate Hfive.
Qed.

(** [reset] has no parameter; its callback, given the handle and one
    input more, calls it. *)
Lemma zero_parameter_two_inputs :
  ~ (forall (func_ptr : Method Z) (args results : list Val) (w : World Z),
       m_args func_ptr = [] ->
       handle_of args <> 0 ->
       (w_calls (generateCallback func_ptr args results w).1.1 <> w_calls w
        <-> length args = 1%nat)).
Proof.
  intros Hclaim.
  assert (Hone : length [VU64 4096; VS32 9] = 1%nat).
  { apply (Hclaim reset [VU64 4096; VS32 9] [] start); [done | done |].
    cbn. discriminate. }
  discriminate Hone.
Qed.

(** The pack [ICounter, ICounter]: two descriptors with the pair
    [(11, 1001)]. *)
Lemma duplicate_interface_pairs :
  ~ (forall Interfaces : list iface,
       exists views,
         registry_view
           (generateLinkerExportInfo info crc Interfaces no_statics).2
           (generateLinkerExportInfo info crc Interfaces no_statics).1
           = Some views /\
         length views = length Interfaces /\
         NoDup (id_pairs views)).
Proof.
  intros Hclaim.
  destruct (Hclaim [ICounter; ICounter]) as (views & Hviews & _ & Hpairs).
  rewrite generateLinkerExportInfo_run in Hviews by apply no_statics_wf.
  cbn [fst snd] in Hviews. rewrite registry_view_assembled in Hviews.
  injection Hviews as <-. cbn in Hpairs.
  apply NoDup_cons in Hpairs as [Hfresh _].
  apply Hfresh. by left.
Qed.

(** Two runs of the assembler for the pack [ICounter]: the builder of
    [ICounter] runs in each. *)
Lemma second_call_rebuilds :
  ~ (forall Interfaces : list iface,
       let first := generateLinkerExportInfo info crc Interfaces no_statics in
       let second := generateLinkerExportInfo info crc Interfaces first.2 in
       registry_view second.2 second.1 = registry_view first.2 first.1 /\
       fill_trace second.2 = fill_trace first.2).
Proof.
  intros Hclaim.
  destruct (Hclaim [ICounter]) as [_ Htrace].
  vm_compute in Htrace. discriminate Htrace.
Qed.

(** [bump] on the handle [4096] and [s32(7)]: the counter goes from 35 to
    42, which is stored as [u64]; the same [7] sent as [s64] does not match
    the [int32_t] parameter and reaches the method as [0]. *)
Example bump_seven :
  (generateCallback bump [VU64 4096; VS32 7] [VBool true] start).1.2
    = [VU64 42].
Proof. reflexivity. Qed.

Example bump_seven_as_s64 :
  (generateCallback bump [VU64 4096; VS64 7] [VBool true] start).1.2
    = [VU64 35].
Proof. reflexivity. Qed.

Example registry_of_two :
  id_pairs <$>
    registry_view
      (generateLinkerExportInfo info crc [ICounter; IClock] no_statics).2
      (generateLinkerExportInfo info crc [ICounter; IClock] no_statics).1
    = Some [(11, 1001); (12, 1002)].
Proof. vm_compute. reflexivity. Qed.

Lemma wrap_extract_wrap_witness :
  supported NUInt64 = true /\
  native_range NUInt64 (2 ^ 64 - 1) /\
  createResultVal NUInt64
    (extractValue NUInt64 (createResultVal NUInt64 (2 ^ 64 - 1)) 0)
    = createResultVal NUInt64 (2 ^ 64 - 1).
Proof.
  split; [reflexivity |]. split; [by vm_compute |].
  apply (wrap_extract_wrap NUInt64 (2 ^ 64 - 1) 0);
    [reflexivity | by vm_compute].
Defined.

Lemma extract_mismatch_witness :
  supported NInt64 = true /\
  tag_of (VU64 (2 ^ 64 - 1)) <> tag_for NInt64 /\
  extractValue NInt64 (VU64 (2 ^ 64 - 1)) 0 = Int.to_s64 (2 ^ 64 - 1) /\
  (forall index, extractValue NInt64 (VS32 7) index = zero_value NInt64).
Proof.
  split; [reflexivity |]. split; [discriminate |]. split.
  - apply (extract_mismatch NInt64 (VU64 (2 ^ 64 - 1)) 0);
      [reflexivity | discriminate | reflexivity | reflexivity].
  - intros index.
    apply (extract_mismatch NInt64 (VS32 7) index);
      [reflexivity | discriminate | right; discriminate].
Defined.

Lemma callback_rejects_without_invoking_witness :
  ((length [VU64 4096] < 1 + length (m_args bump))%nat
   \/ handle_of [VU64 4096] = 0) /\
  exists w' e,
    generateCallback bump [VU64 4096] [VBool true] start
      = (w', [VBool true], ROk) /\
    w_calls w' = w_calls start /\
    w_host w' = w_host start /\
    is_error e /\
    w_log w' = w_log start ++ [InfoInvoked (length [VU64 4096]); e].
Proof.
  split; [left; cbn; lia |].
  apply (callback_rejects_without_invoking bump [VU64 4096] [VBool true]).
  left. cbn. lia.
Defined.

Lemma callback_u64_result_witness :
  m_args bump = [NInt32] /\
  m_ret bump = Some NUInt64 /\
  extractValue NInt64 (VU64 4096) 0 <> 0 /\
  Int.is_u64 (m_body bump (extractValue NInt64 (VU64 4096) 0) [7]
                     (w_host start)).2 /\
  exists w',
    generateCallback bump [VU64 4096; VS32 7] [VBool true] start
      = (w', [VU64 42], ROk) /\
    w_calls w' = w_calls start ++
      [{| inv_method := bump; inv_instance := 4096; inv_actuals := [7] |}] /\
    w_host w' = 42.
Proof.
  split; [reflexivity |]. split; [reflexivity |].
  split; [by vm_compute |]. split; [by vm_compute |].
  apply (callback_u64_result bump (VU64 4096) (VBool true) start);
    [reflexivity | reflexivity | by vm_compute | by vm_compute].
Defined.

Lemma zero_parameter_callback_witness :
  m_args reset = [] /\
  (w_calls (generateCallback reset [VU64 4096; VS32 9] [] start).1.1
     = w_calls start ++
         [{| inv_method := reset;
             inv_instance := handle_of [VU64 4096; VS32 9];
             inv_actuals := [] |}]
   <-> (1 <= length [VU64 4096; VS32 9])%nat
       /\ handle_of [VU64 4096; VS32 9] <> 0).
Proof.
  split; [reflexivity |].
  apply (zero_parameter_callback reset [VU64 4096; VS32 9] [] start).
  reflexivity.
Defined.

Lemma callback_outputs_frame_witness :
  m_ret reset = None /\
  (generateCallback reset [VU64 4096] [VBool true; VBool false] start).1.2
    = [VBool true; VBool false].
Proof.
  split; [reflexivity |].
  apply (callback_outputs_frame reset [VU64 4096] [VBool true; VBool false]
                                start).
  reflexivity.
Defined.

Lemma callback_without_output_slot_witness :
  m_ret bump = Some NUInt64 /\
  accepted bump [VU64 4096; VS32 7] /\
  exists w',
    generateCallback bump [VU64 4096; VS32 7] [] start = (w', [], ROk) /\
    w_calls w' = w_calls start ++ [invocation_of bump [VU64 4096; VS32 7]] /\
    w_host w' = method_effect bump [VU64 4096; VS32 7] start.
Proof.
  assert (Hacc : accepted bump [VU64 4096; VS32 7]).
  { split; [cbn; lia | by vm_compute]. }
  split; [reflexivity |]. split; [exact Hacc |].
  apply (callback_without_output_slot bump NUInt64 [VU64 4096; VS32 7] start);
    [reflexivity | exact Hacc].
Defined.

Lemma registry_descriptors_in_order_witness :
  statics_wf info (@no_statics Z iface _ _) /\
  exists views,
    registry_view
      (generateLinkerExportInfo info crc [ICounter; IClock] no_statics).2
      (generateLinkerExportInfo info crc [ICounter; IClock] no_statics).1
      = Some views /\
    length views = 2%nat /\
    id_pairs views = [(11, 1001); (12, 1002)].
Proof.
  split; [apply no_statics_wf |].
  destruct (registry_descriptors_in_order info crc [ICounter; IClock]
              no_statics (no_statics_wf info))
    as (views & Hviews & Hlength & _ & Hpairs & _).
  exists views. split; [exact Hviews |]. split; [exact Hlength |].
  exact Hpairs.
Defined.

Lemma registry_rebuilt_identically_witness :
  statics_wf info (@no_statics Z iface _ _) /\
  fill_trace
    (generateLinkerExportInfo info crc [ICounter; IClock]
       (generateLinkerExportInfo info crc [ICounter; IClock] no_statics).2).2
    = fill_trace
        (generateLinkerExportInfo info crc [ICounter; IClock] no_statics).2
        ++ [ICounter; IClock].
Proof.
  split; [apply no_statics_wf |].
  apply (registry_rebuilt_identically info crc [ICounter; IClock] no_statics
           (no_statics_wf info)).
Defined.

Lemma link_interfaces_ignores_checksum_witness :
  statics_wf info (@no_statics Z iface _ _) /\
  link_interfaces info crc [ICounter; IClock] 1 no_statics
    = link_interfaces info crc [ICounter; IClock] 2 no_statics /\
  registry_view
    (link_interfaces info crc [ICounter; IClock] 1 no_statics).2
    (link_interfaces info crc [ICounter; IClock] 1 no_statics).1
    = Some (interface_view_of info crc <$> [ICounter; IClock]).
Proof.
  split; [apply no_statics_wf |].
  destruct (link_interfaces_ignores_checksum info crc [ICounter; IClock]
              1 2 no_statics) as [Hsame Hview].
  split; [exact Hsame | exact (Hview (no_statics_wf info))].
Defined.

End Evaluation.

(** ** More on the converter *)

Section ConverterMore.

Lemma extractValue_other_tag T val index :
  supported T = true ->
  tag_of val <> tag_for T ->
  T <> NInt64 \/ tag_of val <> KU64 ->
  extractValue T val index = 0.
Proof.
  intros Hs Htag Hcase.
  destruct T, val; simpl in *; try done; destruct Hcase; done.
Qed.

(** X5: a [u64] value read at [int64_t] keeps its 64 bits: converted back
    to [uint64_t] it is the payload again, it is zero only for the payload
    zero, and it is negative exactly for the payloads from [2^63] on. *)
Theorem extract_u64_at_int64_bits (z : Z) (index : nat) :
  Int.is_u64 z ->
  Int.to_u64 (extractValue NInt64 (VU64 z) index) = z /\
  (extractValue NInt64 (VU64 z) index = 0 <-> z = 0) /\
  (extractValue NInt64 (VU64 z) index < 0 <-> 2 ^ 63 <= z).
Proof.
  intros Hz. cbn [extractValue]. rewrite to_s64_of_u64 by done.
  unfold Int.is_u64, Int.to_u64, Int.two64 in *.
  case_bool_decide as Hlow.
  - rewrite Z.mod_small by lia. lia.
  - replace (z - 2 ^ 64) with (z + (-1) * 2 ^ 64) by lia.
    rewrite Z.mod_add by lia. rewrite Z.mod_small by lia. lia.
Qed.

End ConverterMore.

Section CallbackMore.

Context {Host : Type}.
Implicit Types (func_ptr : Method Host) (args results : list Val)
  (w : World Host).

Lemma extract_actuals_lookup (Args : list NativeTy) args (i : nat) T :
  Args !! i = Some T ->
  extract_actuals Args args !! i
    = Some (extractValue T (args !!! S i) (S i)).
Proof.
  intros HT. unfold extract_actuals.
  rewrite list_lookup_imap, HT. cbn.
  by replace (i + 1)%nat with (S i) by lia.
Qed.

(** X1: a callback returns success whatever it is given; none of its
    paths returns a failure. *)
Theorem callback_always_succeeds func_ptr args results w :
  (generateCallback func_ptr args results w).2 = ROk.
Proof.
  destruct (decide (accepted func_ptr args)) as [Hyes | Hno].
  - destruct (callback_accept func_ptr args results w Hyes) as (lg & Hrun).
    by rewrite Hrun.
  - destruct (callback_reject func_ptr args results w Hno) as (e & _ & Hrun).
    by rewrite Hrun.
Qed.

(** X2: a callback given enough inputs and a handle that is not null
    makes one call, of its own method, on the handle read from [args[0]];
    the method gets as many arguments as it has parameters, the [i]-th
    extracted from [args[i + 1]] at the type of the [i]-th parameter, and
    the host is left as the method leaves it. *)
Theorem callback_invokes_positionally func_ptr args results w :
  accepted func_ptr args ->
  exists inv,
    w_calls (generateCallback func_ptr args results w).1.1
      = w_calls w ++ [inv] /\
    inv_method inv = func_ptr /\
    inv_instance inv = handle_of args /\
    length (inv_actuals inv) = length (m_args func_ptr) /\
    (forall (i : nat) T,
       m_args func_ptr !! i = Some T ->
       exists val,
         args !! S i = Some val /\
         inv_actuals inv !! i = Some (extractValue T val (S i))) /\
    w_host (generateCallback func_ptr args results w).1.1
      = (m_body func_ptr (inv_instance inv) (inv_actuals inv) (w_host w)).1.
Proof.
  intros Hyes.
  destruct (callback_accept func_ptr args results w Hyes) as (lg & Hrun).
  rewrite Hrun. cbn [fst snd w_calls w_host].
  exists (invocation_of func_ptr args).
  split; [done |]. split; [done |]. split; [done |].
  split; [apply length_imap |]. split; [| done].
  intros i T HT. destruct Hyes as [Hlen _].
  apply lookup_lt_Some in HT as Hi.
  destruct (lookup_lt_is_Some_2 args (S i)) as [val Hval]; [lia |].
  exists val. split; [done |]. cbn [invocation_of inv_actuals].
  rewrite (extract_actuals_lookup _ _ _ _ HT).
  by rewrite (list_lookup_total_correct _ _ _ Hval).
Qed.

Lemma handle_of_app args extra :
  (1 <= length args)%nat -> handle_of (args ++ extra) = handle_of args.
Proof.
  intros Hlen. unfold handle_of. f_equal.
  destruct args as [| val args]; [simpl in Hlen; lia | done].
Qed.

Lemma extract_actuals_app (Args : list NativeTy) args extra :
  (1 + length Args <= length args)%nat ->
  extract_actuals Args (args ++ extra) = extract_actuals Args args.
Proof.
  intros Hlen. unfold extract_actuals.
  apply imap_ext. intros i T HT. apply lookup_lt_Some in HT.
  f_equal. apply lookup_total_app_l. lia.
Qed.

(** X3: inputs after the first [1 + parameter_count] are never read: with
    or without them the outputs, the host and the calls made are the
    same. *)
Theorem callback_ignores_trailing_inputs func_ptr args extra results w :
  (1 + length (m_args func_ptr) <= length args)%nat ->
  (generateCallback func_ptr (args ++ extra) results w).1.2
    = (generateCallback func_ptr args results w).1.2 /\
  w_host (generateCallback func_ptr (args ++ extra) results w).1.1
    = w_host (generateCallback func_ptr args results w).1.1 /\
  w_calls (generateCallback func_ptr (args ++ extra) results w).1.1
    = w_calls (generateCallback func_ptr args results w).1.1.
Proof.
  intros Hlen.
  assert (Hhandle : handle_of (args ++ extra) = handle_of args)
    by (apply handle_of_app; lia).
  assert (Hactuals :
    extract_actuals (m_args func_ptr) (args ++ extra)
      = extract_actuals (m_args func_ptr) args)
    by (by apply extract_actuals_app).
  destruct (decide (handle_of args = 0)) as [Hnull | Hvalid].
  - destruct (callback_reject func_ptr args results w) as (e & _ & Hrun).
    { intros [_ Hok]. done. }
    destruct (callback_reject func_ptr (args ++ extra) results w)
      as (e' & _ & Hrun').
    { intros [_ Hok]. congruence. }
    by rewrite Hrun, Hrun'.
  - destruct (callback_accept func_ptr args results w) as (lg & Hrun).
    { by split. }
    destruct (callback_accept func_ptr (args ++ extra) results w)
      as (lg' & Hrun').
    { split; [rewrite length_app; lia | congruence]. }
    rewrite Hrun, Hrun'. cbn [fst snd w_host w_calls].
    unfold method_result, method_effect, invocation_of.
    by rewrite Hhandle, Hactuals.
Qed.

(** X4: an input whose tag does not fit its parameter does not stop the
    call: the method is called and gets zero for that parameter (a [u64]
    input of an [int64_t] parameter apart, which is converted). *)
Theorem callback_zero_for_mismatched_input func_ptr args results w
    (i : nat) T val :
  accepted func_ptr args ->
  m_args func_ptr !! i = Some T ->
  supported T = true ->
  args !! S i = Some val ->
  tag_of val <> tag_for T ->
  T <> NInt64 \/ tag_of val <> KU64 ->
  exists inv,
    w_calls (generateCallback func_ptr args results w).1.1
      = w_calls w ++ [inv] /\
    inv_actuals inv !! i = Some 0.
Proof.
  intros Hyes HT Hs Hval Htag Hcase.
  destruct (callback_accept func_ptr args results w Hyes) as (lg & Hrun).
  rewrite Hrun. cbn [fst snd w_calls].
  exists (invocation_of func_ptr args). split; [done |].
  cbn [invocation_of inv_actuals].
  rewrite (extract_actuals_lookup _ _ _ _ HT).
  rewrite (list_lookup_total_correct _ _ _ Hval).
  by rewrite extractValue_other_tag.
Qed.

(** X6: a handle sent under a tag other than [s64] and [u64] reads as
    null whatever its payload: no call is made and the outputs and the
    host are unchanged, however many inputs follow. *)
Theorem callback_rejects_foreign_handle func_ptr args results w val :
  args !! 0%nat = Some val ->
  tag_of val <> KS64 ->
  tag_of val <> KU64 ->
  (generateCallback func_ptr args results w).1.2 = results /\
  w_host (generateCallback func_ptr args results w).1.1 = w_host w /\
  w_calls (generateCallback func_ptr args results w).1.1 = w_calls w.
Proof.
  intros Hval Hs64 Hu64.
  destruct (callback_reject func_ptr args results w) as (e & _ & Hrun).
  { intros [_ Hok]. apply Hok. unfold handle_of.
    rewrite (list_lookup_total_correct _ _ _ Hval).
    by destruct val. }
  by rewrite Hrun.
Qed.

(** X7: the log is written and never read: started on another log, a
    callback gives the same outputs, host and calls, and appends the same
    messages. *)
Theorem callback_ignores_log func_ptr args results w (lg : list LogEvent) :
  (generateCallback func_ptr args results (with_log lg w)).1.2
    = (generateCallback func_ptr args results w).1.2 /\
  w_host (generateCallback func_ptr args results (with_log lg w)).1.1
    = w_host (generateCallback func_ptr args results w).1.1 /\
  w_calls (generateCallback func_ptr args results (with_log lg w)).1.1
    = w_calls (generateCallback func_ptr args results w).1.1 /\
  exists new,
    w_log (generateCallback func_ptr args results w).1.1 = w_log w ++ new /\
    w_log (generateCallback func_ptr args results (with_log lg w)).1.1
      = lg ++ new.
Proof.
  unfold generateCallback, generateCallbackImpl.
  case_bool_decide as Hlen.
  { cbn. repeat split. eexists. by rewrite <- !app_assoc. }
  case_bool_decide as Hnull.
  { cbn. repeat split. eexists. by rewrite <- !app_assoc. }
  unfold call_method. cbn [w_host log log_all with_log].
  destruct (m_body func_ptr _ _ (w_host w)) as [h r].
  destruct (m_ret func_ptr) as [Ret |]; cbn.
  - repeat split. eexists. by rewrite <- !app_assoc.
  - repeat split. eexists. by rewrite <- !app_assoc.
Qed.

(** X8: a result of a type the converter does not know is not passed on:
    [output[0]] receives [s32(0)] whatever the method returned. *)
Theorem callback_unsupported_result func_ptr Ret args results w :
  accepted func_ptr args ->
  m_ret func_ptr = Some Ret ->
  supported Ret = false ->
  (0 < length results)%nat ->
  (generateCallback func_ptr args results w).1.2
    = <[0%nat := VS32 0]> results.
Proof.
  intros Hyes Hret Hs Hslot.
  destruct (callback_accept func_ptr args results w Hyes) as (lg & Hrun).
  rewrite Hrun, Hret. cbn [fst snd].
  rewrite bool_decide_eq_true_2 by done.
  by destruct Ret.
Qed.

(** X9: after a call of a method returning a value of a supported type,
    [output[0]] is a well-formed typed value of the tag of that type, from
    which extraction at the type gives the method's result back. *)
Theorem callback_result_readable func_ptr Ret args results w :
  accepted func_ptr args ->
  m_ret func_ptr = Some Ret ->
  supported Ret = true ->
  native_range Ret (method_result func_ptr args w) ->
  (0 < length results)%nat ->
  exists out,
    (generateCallback func_ptr args results w).1.2 !! 0%nat = Some out /\
    tag_of out = tag_for Ret /\
    val_wf out /\
    extractValue Ret out 0 = method_result func_ptr args w.
Proof.
  intros Hyes Hret Hs Hrange Hslot.
  destruct (callback_accept func_ptr args results w Hyes) as (lg & Hrun).
  rewrite Hrun, Hret. cbn [fst snd].
  rewrite bool_decide_eq_true_2 by done.
  eexists. split; [by apply list_lookup_insert_eq |].
  split; [apply tag_of_createResultVal |].
  split; [by apply createResultVal_wf |].
  by apply extract_create.
Qed.

End CallbackMore.

(** ** More on the descriptor builder and the assembler *)

Section RegistryMore.

Context {Host Iface : Type} `{Countable Iface}.
Variable interfaceInfo : Iface -> InterfaceInfo Host.
Variable genCrc32StringID : string -> Z.

Implicit Types (st : Statics Host Iface) (T : Iface)
  (Interfaces : list Iface).

Lemma lookup_init_once_ne {K V : Type} `{Countable K}
    (m : gmap K V) (k k' : K) (dflt : V) :
  k <> k' -> init_once k dflt m !! k' = m !! k'.
Proof.
  intros Hne. unfold init_once. destruct (m !! k); [done |].
  by apply lookup_insert_ne.
Qed.

(** X10: the descriptor filled for an interface type counts as many
    functions as the metadata enumerates and, read through its pointers,
    lists them in the order of the enumeration, each under its export
    name, id and checksum with the callback generated from its own method
    pointer; its name is the interface's export name. *)
Theorem descriptor_lists_member_functions T slot st :
  statics_wf interfaceInfo st ->
  let filled_slot :=
    (fillInterfaceExportInfo interfaceInfo genCrc32StringID T slot st).1 in
  let st' :=
    (fillInterfaceExportInfo interfaceInfo genCrc32StringID T slot st).2 in
  m_member_function_count filled_slot
    = length (memberFunctions (interfaceInfo T)) /\
  iv_name (view_interface st' filled_slot)
    = Some (getWitFullInterfaceName (interfaceInfo T)) /\
  exists functions,
    iv_functions (view_interface st' filled_slot) = Some functions /\
    length functions = length (memberFunctions (interfaceInfo T)) /\
    forall (j : nat) f,
      memberFunctions (interfaceInfo T) !! j = Some f ->
      functions !! j
        = Some {| fv_name := Some (mf_wit_func_name f);
                  fv_id := mf_function_id f;
                  fv_checksum := mf_function_checksum f;
                  fv_callback := Some (generateCallback (mf_func_ptr f)) |}.
Proof.
  intros Hwf filled_slot st'. subst filled_slot st'.
  rewrite fillInterfaceExportInfo_run by done. cbn [fst snd].
  rewrite (view_interface_filled interfaceInfo genCrc32StringID);
    [| by cbn; rewrite lookup_insert_eq ..].
  split; [done |]. split; [done |].
  eexists. split; [reflexivity |]. split; [apply length_fmap |].
  intros j f Hf. by rewrite list_lookup_fmap, Hf.
Qed.

(** The statics [fillInterfaceExportInfo] hands back, the descriptor it
    hands back next to them not yet stored: only the strings and arrays
    of [T] have changed. *)
Lemma fillInterfaceExportInfo_others T slot st :
  let st' :=
    (fillInterfaceExportInfo interfaceInfo genCrc32StringID T slot st).2 in
  (forall T', T' <> T ->
     interface_name st' !! T' = interface_name st !! T' /\
     function_info_array st' !! T' = function_info_array st !! T' /\
     function_name_array st' !! T' = function_name_array st !! T') /\
  m_interface_export_info_array st' = m_interface_export_info_array st /\
  m_linker_export_info st' = m_linker_export_info st.
Proof.
  intros st'. subst st'. unfold fillInterfaceExportInfo.
  erewrite fill_functions_run;
    cbn [function_info_array function_name_array fill_statics];
    [| apply lookup_init_once | apply lookup_init_once].
  cbn. split; [| done].
  intros T' Hne. rewrite !lookup_insert_ne by done.
  by rewrite !lookup_init_once_ne.
Qed.

(** X11: one element of the assembler's initializer list, the call
    [fillInterfaceExportInfo(m_interface_export_info_array[index++])] for
    the type [T], writes the descriptor array of its pack at [index] only
    and, besides, the strings and arrays of [T] only: the other elements
    of the array and its size, the descriptor arrays of the other packs,
    the statics of every other interface type and the [LinkerExportInfo]
    structures are as before. *)
Theorem fill_leaves_other_interfaces Interfaces (index : nat) T st :
  let st' :=
    (fill_interface interfaceInfo genCrc32StringID Interfaces
                    (index, st) T).2 in
  (forall T', T' <> T ->
     interface_name st' !! T' = interface_name st !! T' /\
     function_info_array st' !! T' = function_info_array st !! T' /\
     function_name_array st' !! T' = function_name_array st !! T') /\
  (forall Interfaces', Interfaces' <> Interfaces ->
     m_interface_export_info_array st' !! Interfaces'
       = m_interface_export_info_array st !! Interfaces') /\
  (forall array,
     m_interface_export_info_array st !! Interfaces = Some array ->
     exists array',
       m_interface_export_info_array st' !! Interfaces = Some array' /\
       length array' = length array /\
       forall i : nat, i <> index -> array' !! i = array !! i) /\
  m_linker_export_info st' = m_linker_export_info st.
Proof.
  intros st'. subst st'. unfold fill_interface.
  pose proof (fillInterfaceExportInfo_others T
                (slot_at Interfaces index st) st) as Hothers.
  destruct (fillInterfaceExportInfo interfaceInfo genCrc32StringID T
              (slot_at Interfaces index st) st) as [slot st1].
  cbn in Hothers. destruct Hothers as (Htypes & Harrays & Hlinker).
  cbn. unfold assign_at. rewrite Harrays.
  split; [exact Htypes |]. split; [| split; [| exact Hlinker]].
  - intros Interfaces' Hne. by apply lookup_alter_ne.
  - intros array Harray. rewrite lookup_alter_eq, Harray. cbn.
    eexists. split; [reflexivity |]. split; [apply length_insert |].
    intros i Hi. by apply list_lookup_insert_ne.
Qed.

(** X12: filling the descriptor of an interface type a second time,
    whatever the structure to fill held, gives the descriptor the first
    time gave, and that descriptor read through its pointers after the
    second run lists the name and the functions it listed after the
    first. *)
Theorem fill_twice_same_descriptor T slot slot' st :
  statics_wf interfaceInfo st ->
  let first :=
    fillInterfaceExportInfo interfaceInfo genCrc32StringID T slot st in
  let second :=
    fillInterfaceExportInfo interfaceInfo genCrc32StringID T slot' first.2 in
  second.1 = first.1 /\
  view_interface first.2 first.1
    = interface_view_of interfaceInfo genCrc32StringID T /\
  view_interface second.2 second.1 = view_interface first.2 first.1.
Proof.
  intros Hwf first second. subst first second.
  rewrite (fillInterfaceExportInfo_run _ _ T slot st) by done.
  cbn [fst snd].
  rewrite fillInterfaceExportInfo_run by (by apply filled_wf).
  cbn [fst snd]. split; [done |].
  rewrite !(view_interface_filled interfaceInfo genCrc32StringID);
    [done | by cbn; rewrite lookup_insert_eq ..].
Qed.

(** A stored registry reads as the metadata prescribes. *)
Lemma pack_stored_view Interfaces st :
  pack_stored interfaceInfo genCrc32StringID Interfaces st ->
  registry_view st (LinkerExportInfoAddr Interfaces)
    = Some (interface_view_of interfaceInfo genCrc32StringID <$> Interfaces).
Proof.
  intros (Hlinker & Harray & Htypes).
  unfold registry_view. rewrite Hlinker.
  cbn [m_interface_array m_interface_count read_interfaces].
  rewrite Harray. cbn [fmap option_fmap option_map]. f_equal.
  rewrite take_ge by (by rewrite length_fmap).
  rewrite <- list_fmap_compose.
  apply list_fmap_ext. intros i T HT.
  apply list_elem_of_lookup_2 in HT.
  destruct (Htypes T HT) as (Hname & Hinfos & Hnames). cbn.
  by apply view_interface_filled.
Qed.

Lemma assembled_stores Interfaces st :
  pack_stored interfaceInfo genCrc32StringID Interfaces
    (assembled interfaceInfo genCrc32StringID Interfaces st).
Proof.
  unfold pack_stored, assembled. cbn.
  rewrite !lookup_insert_eq. split; [done |]. split; [done |].
  intros T HT. rewrite !lookup_insert_all. by rewrite !decide_True.
Qed.

Lemma assembled_keeps Interfaces Interfaces' st :
  pack_stored interfaceInfo genCrc32StringID Interfaces st ->
  pack_stored interfaceInfo genCrc32StringID Interfaces
    (assembled interfaceInfo genCrc32StringID Interfaces' st).
Proof.
  intros (Hlinker & Harray & Htypes).
  unfold pack_stored, assembled. cbn.
  rewrite !lookup_insert. split; [| split].
  - case_decide as Heq; [by rewrite Heq | done].
  - case_decide as Heq; [by rewrite Heq | done].
  - intros T HT. destruct (Htypes T HT) as (Hname & Hinfos & Hnames).
    rewrite !lookup_insert_all. by case_decide.
Qed.

Lemma run_packs_wf (packs : list (list Iface)) :
  forall st,
    statics_wf interfaceInfo st ->
    statics_wf interfaceInfo
      (run_packs interfaceInfo genCrc32StringID packs st).
Proof.
  induction packs as [| Interfaces packs IH]; intros st Hwf; [done |].
  cbn. apply IH. by apply generateLinkerExportInfo_wf.
Qed.

Lemma run_packs_keeps Interfaces (packs : list (list Iface)) :
  forall st,
    statics_wf interfaceInfo st ->
    pack_stored interfaceInfo genCrc32StringID Interfaces st ->
    pack_stored interfaceInfo genCrc32StringID Interfaces
      (run_packs interfaceInfo genCrc32StringID packs st).
Proof.
  induction packs as [| Interfaces' packs IH]; intros st Hwf Hstored;
    [done |].
  cbn. apply IH.
  - by apply generateLinkerExportInfo_wf.
  - rewrite generateLinkerExportInfo_run by done. by apply assembled_keeps.
Qed.

Lemma run_packs_stores Interfaces (packs : list (list Iface)) :
  forall st,
    statics_wf interfaceInfo st ->
    Interfaces ∈ packs ->
    pack_stored interfaceInfo genCrc32StringID Interfaces
      (run_packs interfaceInfo genCrc32StringID packs st).
Proof.
  induction packs as [| Interfaces' packs IH]; intros st Hwf Hin.
  - by apply elem_of_nil in Hin.
  - cbn. apply elem_of_cons in Hin as [-> | Hin].
    + apply run_packs_keeps; [by apply generateLinkerExportInfo_wf |].
      rewrite generateLinkerExportInfo_run by done.
      apply assembled_stores.
    + apply IH; [by apply generateLinkerExportInfo_wf | done].
Qed.

(** X13: a registry stays readable and unchanged: after any sequence of
    runs of the assembler, for the same pack or others, the registry of
    each pack assembled on the way still reads as the metadata of its
    types prescribes. *)
Theorem registries_survive_later_runs Interfaces
    (packs : list (list Iface)) st :
  statics_wf interfaceInfo st ->
  Interfaces ∈ packs ->
  registry_view (run_packs interfaceInfo genCrc32StringID packs st)
                (LinkerExportInfoAddr Interfaces)
    = Some (interface_view_of interfaceInfo genCrc32StringID <$> Interfaces).
Proof.
  intros Hwf Hin. apply pack_stored_view. by apply run_packs_stores.
Qed.

(** X14: the callback found in the registry under the [j]-th function of
    the [i]-th interface carries that function's export name and id and
    calls that function's method: once when it is given enough inputs and
    a handle that is not null, and not at all otherwise. *)
Theorem registry_callback_dispatches Interfaces st (i j : nat) T f :
  statics_wf interfaceInfo st ->
  Interfaces !! i = Some T ->
  memberFunctions (interfaceInfo T) !! j = Some f ->
  exists views view functions function callback,
    registry_view
      (generateLinkerExportInfo interfaceInfo genCrc32StringID
                                Interfaces st).2
      (generateLinkerExportInfo interfaceInfo genCrc32StringID
                                Interfaces st).1
      = Some views /\
    views !! i = Some view /\
    iv_functions view = Some functions /\
    functions !! j = Some function /\
    fv_name function = Some (mf_wit_func_name f) /\
    fv_id function = mf_function_id f /\
    fv_callback function = Some callback /\
    forall args results w,
      (accepted (mf_func_ptr f) args ->
       w_calls (callback args results w).1.1
         = w_calls w ++ [invocation_of (mf_func_ptr f) args]) /\
      (~ accepted (mf_func_ptr f) args ->
       w_calls (callback args results w).1.1 = w_calls w).
Proof.
  intros Hwf HT Hf.
  rewrite generateLinkerExportInfo_run by done. cbn [fst snd].
  rewrite registry_view_assembled.
  eexists _, _, _, _, _.
  split; [reflexivity |].
  split; [by rewrite list_lookup_fmap, HT |].
  split; [reflexivity |].
  split; [by rewrite list_lookup_fmap, Hf |].
  split; [done |]. split; [done |]. split; [reflexivity |].
  intros args results w. split.
  - intros Hyes.
    destruct (callback_accept (mf_func_ptr f) args results w Hyes)
      as (lg & Hrun).
    by rewrite Hrun.
  - intros Hno.
    destruct (callback_reject (mf_func_ptr f) args results w Hno)
      as (e & _ & Hrun).
    by rewrite Hrun.
Qed.

End RegistryMore.

(** ** The further properties on the sample host *)

Section EvaluationMore.

Import Sample SampleMore.

Lemma extract_u64_at_int64_bits_witness :
  Int.is_u64 (2 ^ 64 - 1) /\
  Int.to_u64 (extractValue NInt64 (VU64 (2 ^ 64 - 1)) 0) = 2 ^ 64 - 1 /\
  (extractValue NInt64 (VU64 (2 ^ 64 - 1)) 0 < 0 <-> 2 ^ 63 <= 2 ^ 64 - 1).
Proof.
  split; [by vm_compute |].
  destruct (extract_u64_at_int64_bits (2 ^ 64 - 1) 0) as (Hbits & _ & Hneg);
    [by vm_compute |].
  split; [exact Hbits | exact Hneg].
Defined.

Lemma callback_invokes_positionally_witness :
  accepted ticks [VS64 4096; VU64 5; VF64 9; VBool true] /\
  exists inv,
    w_calls (generateCallback ticks [VS64 4096; VU64 5; VF64 9; VBool true]
                              [] start).1.1
      = w_calls start ++ [inv] /\
    inv_method inv = ticks /\
    inv_instance inv = handle_of [VS64 4096; VU64 5; VF64 9; VBool true] /\
    length (inv_actuals inv) = length (m_args ticks).
Proof.
  assert (Hacc : accepted ticks [VS64 4096; VU64 5; VF64 9; VBool true]).
  { split; [cbn; lia | by vm_compute]. }
  split; [exact Hacc |].
  destruct (callback_invokes_positionally
              ticks [VS64 4096; VU64 5; VF64 9; VBool true] [] start Hacc)
    as (inv & Hcalls & Hmethod & Hinstance & Hlength & _).
  exists inv. split; [exact Hcalls |]. split; [exact Hmethod |].
  split; [exact Hinstance | exact Hlength].
Defined.

Lemma callback_ignores_trailing_inputs_witness :
  (1 + length (m_args bump) <= length [VU64 4096; VS32 7])%nat /\
  (generateCallback bump ([VU64 4096; VS32 7] ++ [VS32 1; VBool true])
                    [VBool true] start).1.2
    = (generateCallback bump [VU64 4096; VS32 7] [VBool true] start).1.2.
Proof.
  split; [cbn; lia |].
  apply (callback_ignores_trailing_inputs
           bump [VU64 4096; VS32 7] [VS32 1; VBool true] [VBool true] start).
  cbn. lia.
Defined.

Lemma callback_zero_for_mismatched_input_witness :
  accepted bump [VU64 4096; VS64 7] /\
  m_args bump !! 0%nat = Some NInt32 /\
  supported NInt32 = true /\
  [VU64 4096; VS64 7] !! 1%nat = Some (VS64 7) /\
  tag_of (VS64 7) <> tag_for NInt32 /\
  exists inv,
    w_calls (generateCallback bump [VU64 4096; VS64 7] [] start).1.1
      = w_calls start ++ [inv] /\
    inv_actuals inv !! 0%nat = Some 0.
Proof.
  assert (Hacc : accepted bump [VU64 4096; VS64 7]).
  { split; [cbn; lia | by vm_compute]. }
  split; [exact Hacc |]. split; [reflexivity |]. split; [reflexivity |].
  split; [reflexivity |]. split; [discriminate |].
  apply (callback_zero_for_mismatched_input
           bump [VU64 4096; VS64 7] [] start 0 NInt32 (VS64 7));
    [exact Hacc | reflexivity | reflexivity | reflexivity | discriminate
    | left; discriminate].
Defined.

Lemma callback_rejects_foreign_handle_witness :
  [VS32 4096; VS32 7] !! 0%nat = Some (VS32 4096) /\
  tag_of (VS32 4096) <> KS64 /\
  tag_of (VS32 4096) <> KU64 /\
  w_calls (generateCallback bump [VS32 4096; VS32 7] [VBool true] start).1.1
    = w_calls start.
Proof.
  split; [reflexivity |]. split; [discriminate |]. split; [discriminate |].
  apply (callback_rejects_foreign_handle
           bump [VS32 4096; VS32 7] [VBool true] start (VS32 4096));
    [reflexivity | discriminate | discriminate].
Defined.

Lemma callback_unsupported_result_witness :
  accepted ticks [VS64 4096; VS64 5; VF64 9] /\
  m_ret ticks = Some NUInt32 /\
  supported NUInt32 = false /\
  (0 < length [VBool true; VBool false])%nat /\
  (generateCallback ticks [VS64 4096; VS64 5; VF64 9]
                    [VBool true; VBool false] start).1.2
    = <[0%nat := VS32 0]> [VBool true; VBool false].
Proof.
  assert (Hacc : accepted ticks [VS64 4096; VS64 5; VF64 9]).
  { split; [cbn; lia | by vm_compute]. }
  split; [exact Hacc |]. split; [reflexivity |]. split; [reflexivity |].
  split; [cbn; lia |].
  apply (callback_unsupported_result
           ticks NUInt32 [VS64 4096; VS64 5; VF64 9]
           [VBool true; VBool false] start);
    [exact Hacc | reflexivity | reflexivity | cbn; lia].
Defined.

Lemma callback_result_readable_witness :
  accepted peek [VU64 4096] /\
  m_ret peek = Some NInt64 /\
  native_range NInt64 (method_result peek [VU64 4096] start) /\
  exists out,
    (generateCallback peek [VU64 4096] [VBool true] start).1.2 !! 0%nat
      = Some out /\
    tag_of out = tag_for NInt64 /\
    val_wf out /\
    extractValue NInt64 out 0 = method_result peek [VU64 4096] start.
Proof.
  assert (Hacc : accepted peek [VU64 4096]).
  { split; [cbn; lia | by vm_compute]. }
  split; [exact Hacc |]. split; [reflexivity |]. split; [by vm_compute |].
  apply (callback_result_readable peek NInt64 [VU64 4096] [VBool true] start);
    [exact Hacc | reflexivity | reflexivity | by vm_compute | cbn; lia].
Defined.

Lemma descriptor_lists_member_functions_witness :
  statics_wf info (@no_statics Z iface _ _) /\
  m_member_function_count
    (fillInterfaceExportInfo info crc ICounter empty_interface_info
                             no_statics).1
    = length (memberFunctions (info ICounter)).
Proof.
  split; [apply no_statics_wf |].
  apply (descriptor_lists_member_functions info crc ICounter
           empty_interface_info no_statics (no_statics_wf info)).
Defined.

Lemma fill_leaves_other_interfaces_witness :
  IClock <> ICounter /\
  m_interface_export_info_array
    (linker_statics [IClock; ICounter] (@no_statics Z iface _ _))
    !! [IClock; ICounter]
    = Some [empty_interface_info; empty_interface_info] /\
  function_info_array
    (fill_interface info crc [IClock; ICounter]
       (1%nat, linker_statics [IClock; ICounter] no_statics) ICounter).2
    !! IClock
    = function_info_array
        (linker_statics [IClock; ICounter] (@no_statics Z iface _ _))
        !! IClock /\
  exists array',
    m_interface_export_info_array
      (fill_interface info crc [IClock; ICounter]
         (1%nat, linker_statics [IClock; ICounter] no_statics) ICounter).2
      !! [IClock; ICounter] = Some array' /\
    length array' = 2%nat /\
    array' !! 0%nat = Some empty_interface_info.
Proof.
  assert (Harray :
    m_interface_export_info_array
      (linker_statics [IClock; ICounter] (@no_statics Z iface _ _))
      !! [IClock; ICounter]
      = Some [empty_interface_info; empty_interface_info])
    by (by vm_compute).
  destruct (fill_leaves_other_interfaces info crc [IClock; ICounter] 1
              ICounter (linker_statics [IClock; ICounter] no_statics))
    as (Htypes & _ & Hpack & _).
  split; [discriminate |]. split; [exact Harray |].
  split; [apply (Htypes IClock); discriminate |].
  destruct (Hpack _ Harray) as (array' & Hstored & Hlength & Hrest).
  exists array'. split; [exact Hstored |]. split; [exact Hlength |].
  apply (Hrest 0%nat). discriminate.
Defined.

Lemma fill_twice_same_descriptor_witness :
  statics_wf info (@no_statics Z iface _ _) /\
  (fillInterfaceExportInfo info crc ICounter
     (interface_info_of info crc IClock)
     (fillInterfaceExportInfo info crc ICounter empty_interface_info
                              no_statics).2).1
    = (fillInterfaceExportInfo info crc ICounter empty_interface_info
                               no_statics).1.
Proof.
  split; [apply no_statics_wf |].
  apply (fill_twice_same_descriptor info crc ICounter empty_interface_info
           (interface_info_of info crc IClock) no_statics
           (no_statics_wf info)).
Defined.

Lemma registries_survive_later_runs_witness :
  statics_wf info (@no_statics Z iface _ _) /\
  [ICounter] ∈ [[ICounter]; [IClock; ICounter]; [IClock]] /\
  registry_view
    (run_packs info crc [[ICounter]; [IClock; ICounter]; [IClock]] no_statics)
    (LinkerExportInfoAddr [ICounter])
    = Some (interface_view_of info crc <$> [ICounter]).
Proof.
  assert (Hin : [ICounter] ∈ [[ICounter]; [IClock; ICounter]; [IClock]])
    by (by left).
  split; [apply no_statics_wf |]. split; [exact Hin |].
  apply (registries_survive_later_runs info crc [ICounter]
           [[ICounter]; [IClock; ICounter]; [IClock]] no_statics
           (no_statics_wf info) Hin).
Defined.

Lemma registry_callback_dispatches_witness :
  statics_wf info (@no_statics Z iface _ _) /\
  [IClock; ICounter] !! 1%nat = Some ICounter /\
  memberFunctions (info ICounter) !! 1%nat
    = Some {| mf_func_ptr := reset; mf_func_name := "reset";
              mf_wit_func_name := "reset"; mf_function_id := 2;
              mf_function_checksum := 102 |} /\
  exists views view functions function callback,
    registry_view
      (generateLinkerExportInfo info crc [IClock; ICounter] no_statics).2
      (generateLinkerExportInfo info crc [IClock; ICounter] no_statics).1
      = Some views /\
    views !! 1%nat = Some view /\
    iv_functions view = Some functions /\
    functions !! 1%nat = Some function /\
    fv_name function = Some "reset"%string /\
    fv_callback function = Some callback.
Proof.
  split; [apply no_statics_wf |]. split; [reflexivity |].
  split; [reflexivity |].
  destruct (registry_callback_dispatches info crc [IClock; ICounter]
              no_statics 1 1 ICounter _ (no_statics_wf info)
              eq_refl eq_refl)
    as (views & view & functions & function & callback
        & Hviews & Hview & Hfunctions & Hfunction & Hname & _ & Hcallback & _).
  exists views, view, functions, function, callback.
  repeat (split; [assumption |]). assumption.
Defined.

End EvaluationMore.
